(** * File-backed storage, the VSCode-to-file migration and the credential client

    A shallow embedding of
    - [src/shared/storage/ClineFileStorage.ts] (the synchronous JSON store),
    - [src/core/storage/vscode-to-file-migration.ts] (the one-time migration
      and the gRPC credential client), and
    - the three VSCode host-bridge credential stubs,
    together with the properties the specification states about them.

    Modelling conventions.
    - A JavaScript object used as a dictionary ([Record<string, T>]) is a
      finite map of its own properties, [gmap string json]; [undefined] is
      [None].  The object is one that [{}] or [JSON.parse] created: its
      prototype is [Object.prototype], whose property names are
      [Object_prototype_names].  The [in] test of [setBatch] sees these
      names.  A read of such a name that the mapping does not hold, and an
      assignment to the key [__proto__], go through [Object.prototype] and
      are not followed by the model: the theorems about a key that the caller
      chooses say which keys they are about ([own_key], [assignable_key]).
    - Values are JSON data.  Numbers are integers: the only arithmetic in the
      code is the comparison of the integer migration version.  A string is
      the sequence of bytes of its UTF-8 encoding.
    - [JSON.stringify] and [JSON.parse] are platform functions; the
      development is parametric in them (section variables).
    - The file system is a finite map from paths to file contents, a set of
      paths on which [fs] calls throw, and a trace of the effects emitted so
      far (persist calls and change notifications).
    - [Logger] calls only write to a log sink that the modelled code never
      reads; they are left out.  (The texts they build convert the sentinel
      to a string only after the sentinel test has converted it.) *)

From stdpp Require Import gmap strings list fin_maps.
From Stdlib Require Import ZArith Ascii DecimalString.

Local Set Warnings "-register-all".

Open Scope Z_scope.
Open Scope string_scope.

(** ** Values *)

Inductive json : Type :=
| JNull
| JBool (b : bool)
| JNum (n : Z)
| JStr (s : string)
| JArr (items : list json)
| JObj (fields : list (string * json)).

(** ** The world outside the store objects *)

(** What the code does to the outside: [Persist] is a run of [writeToDisk]
    with the text and the mode it hands to [fs.writeFileSync]; [Fire] is a
    call of [this.fire(key)], the change notification of the base class
    [ClineSyncStorage] ([./ClineStorage], not among the sources), on the store
    of that name. *)
Inductive Event : Type :=
| Persist (path content : string) (mode : option Z)
| Fire (store key : string).

Record World : Type := mkWorld {
  files : gmap string string;
  broken : gset string;
  trace : list Event
}.

Definition emit (e : Event) (w : World) : World :=
  mkWorld (files w) (broken w) (trace w ++ [e])%list.

Definition is_persist (e : Event) : bool :=
  match e with Persist _ _ _ => true | Fire _ _ => false end.

Definition persists (t : list Event) : list Event := List.filter is_persist t.

Definition fired (t : list Event) : list string :=
  omap (λ e, match e with Fire _ k => Some k | Persist _ _ _ => None end) t.

(** ** ClineFileStorage *)

(** The property names of [Object.prototype], which every dictionary that
    [{}] or [JSON.parse] creates inherits: for these [key in data] holds and
    [data[key]] is not [undefined], whatever the dictionary itself holds. *)
Definition Object_prototype_names : list string :=
  [ "constructor"; "hasOwnProperty"; "isPrototypeOf"; "propertyIsEnumerable";
    "toLocaleString"; "toString"; "valueOf"; "__proto__";
    "__defineGetter__"; "__defineSetter__"; "__lookupGetter__";
    "__lookupSetter__" ].

Definition inherited (key : string) : bool :=
  bool_decide (key ∈ Object_prototype_names).

(** A key that reads as what the dictionary itself holds for it. *)
Definition own_key (key : string) : Prop := key ∉ Object_prototype_names.

(** A key for which [data[key] = value] creates or updates an own property:
    every key but [__proto__], where the assignment runs the inherited
    setter instead. *)
Definition assignable_key (key : string) : Prop := key ≠ "__proto__".

Record ClineFileStorageOptions : Type := { opt_fileMode : option Z }.

Record ClineFileStorage : Type := mkStore {
  name : string;
  data : gmap string json;
  fsPath : string;
  fileMode : option Z
}.

Definition with_data (d : gmap string json) (s : ClineFileStorage) : ClineFileStorage :=
  mkStore (name s) d (fsPath s) (fileMode s).

Section Storage.

(** [JSON.stringify(_, null, 2)] on a dictionary, and [JSON.parse] read at
    the type [Record<string, T>]: [Some d] when the text is that of a
    dictionary [d], [None] when [JSON.parse] throws.  The code does not check
    what [JSON.parse] returns: a text that holds another JSON value (an
    array, a number, a string, a boolean, [null]) makes that value the data
    of the store.  Such a store is not a dictionary and has no counterpart
    here; the theorems that build a store over a file that is already there
    assume that its text is that of a dictionary. *)
Variable JSON_stringify : gmap string json → string.
Variable JSON_parse : string → option (gmap string json).

(** [readFromDisk]: a missing file, a failing read and a text on which
    [JSON.parse] throws all give the empty dictionary. *)
Definition readFromDisk (path : string) (w : World) : gmap string json :=
  if decide (path ∈ broken w) then ∅
  else match files w !! path with
       | Some text =>
           match JSON_parse text with
           | Some d => d
           | None => ∅
           end
       | None => ∅
       end.

(** [this.fileMode ? { encoding, mode } : "utf-8"]: a mode of 0 is falsy. *)
Definition write_mode (s : ClineFileStorage) : option Z :=
  match fileMode s with
  | Some m => if Z.eqb m 0 then None else Some m
  | None => None
  end.

(** [writeToDisk]: the whole dictionary is written; a failure is caught and
    leaves the file as it was. *)
Definition writeToDisk (s : ClineFileStorage) (w : World) : World :=
  let text := JSON_stringify (data s) in
  let w' := emit (Persist (fsPath s) text (write_mode s)) w in
  if decide (fsPath s ∈ broken w) then w'
  else mkWorld (<[fsPath s := text]> (files w')) (broken w') (trace w').

Definition new_ClineFileStorage (filePath : string) (name : option string)
    (options : option ClineFileStorageOptions) (w : World) : ClineFileStorage :=
  mkStore (default "ClineFileStorage" name)
          (readFromDisk filePath w)
          filePath
          (options ≫= opt_fileMode).

(** [this.data[key]], for a key that is held or that is an [own_key]: a name
    of [Object_prototype_names] that the dictionary does not hold reads as
    the inherited function, which is not JSON data. *)
Definition _get (key : string) (s : ClineFileStorage) : option json :=
  data s !! key.

(** [key in this.data]: the key is held, or it is inherited. *)
Definition has_property (key : string) (d : gmap string json) : bool :=
  bool_decide (is_Some (d !! key)) || inherited key.

(** [_set]: [delete this.data[key]] removes an own property, for every key;
    [this.data[key] = value] is the update of the mapping for an
    [assignable_key]. *)
Definition _set (key : string) (value : option json) (s : ClineFileStorage) (w : World)
    : ClineFileStorage * World :=
  let s' := match value with
            | None => with_data (delete key (data s)) s
            | Some v => with_data (<[key := v]> (data s)) s
            end in
  (s', writeToDisk s' w).

Definition _delete (key : string) (s : ClineFileStorage) (w : World)
    : ClineFileStorage * World :=
  let s' := with_data (delete key (data s)) s in
  (s', writeToDisk s' w).

(** The loop of [setBatch] over [Object.entries(entries)]: the dictionary
    and the [changed] flag. *)
Fixpoint setBatch_loop (entries : list (string * option json))
    (d : gmap string json) (changed : bool) : gmap string json * bool :=
  match entries with
  | [] => (d, changed)
  | (key, None) :: rest =>
      if has_property key d
      then setBatch_loop rest (delete key d) true
      else setBatch_loop rest d changed
  | (key, Some v) :: rest =>
      setBatch_loop rest (<[key := v]> d) true
  end.

(** [this.fire(key)] for each key of [Object.keys(entries)]. *)
Definition fire_all (store : string) (keys : list string) (w : World) : World :=
  foldl (λ w key, emit (Fire store key) w) w keys.

Definition setBatch (entries : list (string * option json))
    (s : ClineFileStorage) (w : World) : ClineFileStorage * World :=
  let '(d, changed) := setBatch_loop entries (data s) false in
  let s' := with_data d s in
  if changed
  then (s', fire_all (name s') (entries.*1) (writeToDisk s' w))
  else (s', w).

(** Modelled from the spec: the public [get] of the base class
    [ClineSyncStorage] ([./ClineStorage], not among the sources).  Section
    4.1: a pure read from the in-memory mapping, no I/O. *)
Definition get (key : string) (s : ClineFileStorage) : option json :=
  _get key s.

(** Modelled from the spec: the public [set] of the same base class.  Section
    4.1: it mutates the in-memory mapping, then persists synchronously, and
    never raises.  The spec does not say whether a single [set] notifies the
    subscribers; no notification is modelled for it. *)
Definition set (key : string) (value : option json) (s : ClineFileStorage) (w : World)
    : ClineFileStorage * World :=
  _set key value s w.

End Storage.

(** Whether an entry of a batch counts as a change for [setBatch]: every
    update does, a deletion does when the key is in the dictionary (it is
    held, or it is a name that every dictionary inherits). *)
Definition entry_changes (d : gmap string json) (e : string * option json) : bool :=
  match e.2 with
  | Some _ => true
  | None => has_property e.1 d
  end.

Definition batch_changes (entries : list (string * option json)) (d : gmap string json) : bool :=
  existsb (entry_changes d) entries.

(** ** A JSON text codec

    An executable printer and parser for JSON text in the layout of
    [JSON.stringify(_, null, 2)], with which the model can be run on concrete
    stores; the keys of the top-level dictionary are printed in the order of
    the map.  The theorems below hold for any pair of functions. *)

Module JsonText.

Definition dquote : ascii := ascii_of_nat 34.
Definition backslash : ascii := ascii_of_nat 92.
Definition newline : ascii := ascii_of_nat 10.

Fixpoint spaces (n : nat) : string :=
  match n with
  | O => EmptyString
  | S n => String " " (spaces n)
  end.

Definition hex_digit (n : nat) : ascii :=
  if Nat.ltb n 10 then ascii_of_nat (48 + n)%nat else ascii_of_nat (87 + n)%nat.

Definition escape (c : ascii) : string :=
  let n := nat_of_ascii c in
  if Ascii.eqb c dquote then String backslash (String dquote EmptyString)
  else if Ascii.eqb c backslash then String backslash (String backslash EmptyString)
  else if Nat.eqb n 10 then String backslash "n"
  else if Nat.eqb n 13 then String backslash "r"
  else if Nat.eqb n 9 then String backslash "t"
  else if Nat.ltb n 32
       then String backslash ("u00" ++ String (hex_digit (n / 16)%nat) (String (hex_digit (n mod 16)%nat) EmptyString))
  else String c EmptyString.

Fixpoint escape_all (s : string) : string :=
  match s with
  | EmptyString => EmptyString
  | String c rest => escape c ++ escape_all rest
  end.

Definition quote (s : string) : string :=
  String dquote (escape_all s) ++ String dquote EmptyString.

Definition print_Z (n : Z) : string := NilZero.string_of_int (Z.to_int n).

Definition block (opening closing : string) (ind : nat) (lines : list string) : string :=
  match lines with
  | [] => opening ++ closing
  | _ => opening ++ String newline EmptyString
         ++ String.concat ("," ++ String newline EmptyString)
              (List.map (λ l, spaces (ind + 2)%nat ++ l) lines)
         ++ String newline EmptyString ++ spaces ind ++ closing
  end.

Fixpoint print (ind : nat) (v : json) : string :=
  match v with
  | JNull => "null"
  | JBool true => "true"
  | JBool false => "false"
  | JNum n => print_Z n
  | JStr s => quote s
  | JArr items => block "[" "]" ind (List.map (print (ind + 2)%nat) items)
  | JObj fields =>
      block "{" "}" ind
        (List.map (λ kv, quote (fst kv) ++ ": " ++ print (ind + 2)%nat (snd kv)) fields)
  end.

(** [JSON.stringify(data, null, 2)] *)
Definition stringify (d : gmap string json) : string :=
  print 0 (JObj (map_to_list d)).

Definition is_ws (c : ascii) : bool :=
  let n := nat_of_ascii c in
  Nat.eqb n 32 || Nat.eqb n 10 || Nat.eqb n 13 || Nat.eqb n 9.

Fixpoint skip_ws (s : string) : string :=
  match s with
  | String c rest => if is_ws c then skip_ws rest else s
  | EmptyString => s
  end.

Fixpoint expect (word s : string) : option string :=
  match word, s with
  | EmptyString, _ => Some s
  | String a word', String b s' => if Ascii.eqb a b then expect word' s' else None
  | _, EmptyString => None
  end.

Definition digit_of (c : ascii) : option Z :=
  let n := nat_of_ascii c in
  if Nat.leb 48 n && Nat.leb n 57 then Some (Z.of_nat (n - 48)%nat) else None.

Fixpoint parse_digits (s : string) (acc : Z) : Z * string :=
  match s with
  | String c rest =>
      match digit_of c with
      | Some d => parse_digits rest (10 * acc + d)
      | None => (acc, s)
      end
  | EmptyString => (acc, s)
  end.

Definition parse_nat (s : string) : option (Z * string) :=
  match s with
  | String c _ =>
      match digit_of c with
      | Some _ => Some (parse_digits s 0)
      | None => None
      end
  | EmptyString => None
  end.

Definition hex_of (c : ascii) : option nat :=
  let n := nat_of_ascii c in
  if Nat.leb 48 n && Nat.leb n 57 then Some (n - 48)%nat
  else if Nat.leb 97 n && Nat.leb n 102 then Some (n - 87)%nat
  else if Nat.leb 65 n && Nat.leb n 70 then Some (n - 55)%nat
  else None.

(** The characters of a string literal, after its opening quote. *)
Fixpoint parse_chars (s : string) : option (string * string) :=
  match s with
  | EmptyString => None
  | String c rest =>
      if Ascii.eqb c dquote then Some (EmptyString, rest)
      else if Ascii.eqb c backslash then
        match rest with
        | String e rest' =>
            let plain (x : ascii) (r : string) :=
              match parse_chars r with
              | Some (t, r') => Some (String x t, r')
              | None => None
              end in
            if Ascii.eqb e "n" then plain newline rest'
            else if Ascii.eqb e "r" then plain (ascii_of_nat 13) rest'
            else if Ascii.eqb e "t" then plain (ascii_of_nat 9) rest'
            else if Ascii.eqb e "b" then plain (ascii_of_nat 8) rest'
            else if Ascii.eqb e "f" then plain (ascii_of_nat 12) rest'
            else if Ascii.eqb e "/" then plain "/"%char rest'
            else if Ascii.eqb e dquote then plain dquote rest'
            else if Ascii.eqb e backslash then plain backslash rest'
            else if Ascii.eqb e "u" then
              match rest' with
              | String "0" (String "0" (String h (String l r))) =>
                  match hex_of h, hex_of l with
                  | Some a, Some b => plain (ascii_of_nat (16 * a + b)%nat) r
                  | _, _ => None
                  end
              | _ => None
              end
            else None
        | EmptyString => None
        end
      else if Nat.ltb (nat_of_ascii c) 32 then None
      else match parse_chars rest with
           | Some (t, r') => Some (String c t, r')
           | None => None
           end
  end.

Fixpoint parse_value (fuel : nat) (s : string) : option (json * string) :=
  match fuel with
  | O => None
  | S fuel =>
      match skip_ws s with
      | EmptyString => None
      | String c rest =>
          if Ascii.eqb c "n" then r ← expect "ull" rest; Some (JNull, r)
          else if Ascii.eqb c "t" then r ← expect "rue" rest; Some (JBool true, r)
          else if Ascii.eqb c "f" then r ← expect "alse" rest; Some (JBool false, r)
          else if Ascii.eqb c dquote then '(t, r) ← parse_chars rest; Some (JStr t, r)
          else if Ascii.eqb c "-" then '(n, r) ← parse_nat rest; Some (JNum (- n), r)
          else if Ascii.eqb c "[" then
            match skip_ws rest with
            | String "]" r => Some (JArr [], r)
            | _ => '(items, r) ← parse_items fuel rest; Some (JArr items, r)
            end
          else if Ascii.eqb c "{" then
            match skip_ws rest with
            | String "}" r => Some (JObj [], r)
            | _ => '(fields, r) ← parse_fields fuel rest; Some (JObj fields, r)
            end
          else '(n, r) ← parse_nat (String c rest); Some (JNum n, r)
      end
  end
with parse_items (fuel : nat) (s : string) : option (list json * string) :=
  match fuel with
  | O => None
  | S fuel =>
      '(v, r) ← parse_value fuel s;
      match skip_ws r with
      | String "," r' => '(vs, r'') ← parse_items fuel r'; Some (v :: vs, r'')
      | String "]" r' => Some ([v], r')
      | _ => None
      end
  end
with parse_fields (fuel : nat) (s : string) : option (list (string * json) * string) :=
  match fuel with
  | O => None
  | S fuel =>
      match skip_ws s with
      | String c rest =>
          if Ascii.eqb c dquote then
            '(k, r) ← parse_chars rest;
            match skip_ws r with
            | String ":" r1 =>
                '(v, r2) ← parse_value fuel r1;
                match skip_ws r2 with
                | String "," r3 => '(kvs, r4) ← parse_fields fuel r3; Some ((k, v) :: kvs, r4)
                | String "}" r3 => Some ([(k, v)], r3)
                | _ => None
                end
            | _ => None
            end
          else None
      | EmptyString => None
      end
  end.

(** [JSON.parse] of the text of a dictionary; a later duplicate key wins. *)
Definition parse (text : string) : option (gmap string json) :=
  match parse_value (2 * String.length text + 2)%nat text with
  | Some (JObj fields, r) =>
      match skip_ws r with
      | EmptyString => Some (foldl (λ m kv, <[fst kv := snd kv]> m) ∅ fields)
      | _ => None
      end
  | _ => None
  end.

End JsonText.

(** ** The migration *)

Inductive Error : Type := mkError (message : string).

(** The outcome of a call that may throw, and of a promise that settles:
    [Ok] is a normal return (a resolved promise), [Throw] an exception (a
    rejected promise). *)
Inductive Result (A : Type) : Type :=
| Ok (a : A)
| Throw (e : Error).
Arguments Ok {A} a.
Arguments Throw {A} e.

(** The legacy source, [vscode.ExtensionContext]: the two [Memento.get]
    accessors and [SecretStorage.get], of which the code awaits the promise. *)
Module vscode.
Record ExtensionContext : Type := mkExtensionContext {
    globalState_get : string → Result (option json);
    secrets_get : string → Result (option string);
    workspaceState_get : string → Result (option json)
}.
End vscode.

(** Modelled from the spec: [StorageContext] ([@/shared/storage/storage-context],
    not among the sources) owns exactly three stores, one per domain
    (sections 3 and 4.2). *)
Record StorageContext : Type := mkContext {
  globalState : ClineFileStorage;
  secrets : ClineFileStorage;
  workspaceState : ClineFileStorage
}.

Record MigrationResult : Type := mkResult {
  migrated : bool;
  globalStateCount : nat;
  secretsCount : nat;
  workspaceStateCount : nat;
  skippedExisting : nat
}.

(** ** The comparison [>=] of JavaScript

    [existingVersion >= CURRENT_MIGRATION_VERSION] is typed for numbers, but
    the sentinel is whatever the file of the store held.  On another value
    [>=] first converts: [ToPrimitive] (an array gives the texts of its
    elements joined by commas, an object ["[object Object]"], and an object
    that has a [toString] property of its own, which as JSON data is not
    callable, throws a [TypeError]), then [ToNumber] reads the text as a
    numeric literal; a text that is not one gives [NaN], of which every
    comparison is false.  A string is the sequence of bytes of its UTF-8
    encoding.  A numeric literal is rounded to the nearest double, ties to
    even, before it is compared. *)

Module Loose.

Inductive Number : Type :=
| NaN
| Infinity (negative : bool)
| Decimal (negative : bool) (mantissa : Z) (exponent : Z).

Definition TypeError : Error := mkError "Cannot convert object to primitive value".

Definition bytes (codes : list nat) : string :=
  foldr (λ n s, String (ascii_of_nat n) s) EmptyString codes.

(** [WhiteSpace] and [LineTerminator]: TAB, LF, VT, FF, CR, SP, U+00A0,
    U+1680, U+2000 to U+200A, U+2028, U+2029, U+202F, U+205F, U+3000,
    U+FEFF. *)
Definition StrWhiteSpaceChar : list string :=
  map bytes
    [ [9]; [10]; [11]; [12]; [13]; [32]; [194; 160]; [225; 154; 128];
      [226; 128; 128]; [226; 128; 129]; [226; 128; 130]; [226; 128; 131];
      [226; 128; 132]; [226; 128; 133]; [226; 128; 134]; [226; 128; 135];
      [226; 128; 136]; [226; 128; 137]; [226; 128; 138]; [226; 128; 168];
      [226; 128; 169]; [226; 128; 175]; [226; 129; 159]; [227; 128; 128];
      [239; 187; 191] ]%nat.

Fixpoint strip_prefix (p s : string) : option string :=
  match p, s with
  | EmptyString, _ => Some s
  | String a p', String b s' => if Ascii.eqb a b then strip_prefix p' s' else None
  | String _ _, EmptyString => None
  end.

Definition strip_one_of (prefixes : list string) (s : string) : option string :=
  foldr (λ p found, match strip_prefix p s with
                    | Some rest => Some rest
                    | None => found
                    end) None prefixes.

Fixpoint skip_white_space (fuel : nat) (s : string) : string :=
  match fuel with
  | O => s
  | S fuel =>
      match strip_one_of StrWhiteSpaceChar s with
      | Some rest => skip_white_space fuel rest
      | None => s
      end
  end.

Definition trim_start (s : string) : string := skip_white_space (String.length s) s.

Definition digit_value (base : Z) (c : ascii) : option Z :=
  let n := Z.of_nat (nat_of_ascii c) in
  let d := if Z.leb 48 n && Z.leb n 57 then Some (n - 48)
           else if Z.leb 97 n && Z.leb n 102 then Some (n - 87)
           else if Z.leb 65 n && Z.leb n 70 then Some (n - 55)
           else None in
  match d with
  | Some d => if Z.ltb d base then Some d else None
  | None => None
  end.

(** The longest run of digits at the head of [s]: their value on top of
    [acc], their number, and the rest. *)
Fixpoint digits (base : Z) (s : string) (acc count : Z) : Z * Z * string :=
  match s with
  | String c rest =>
      match digit_value base c with
      | Some d => digits base rest (acc * base + d) (count + 1)
      | None => (acc, count, s)
      end
  | EmptyString => (acc, count, s)
  end.

(** [NonDecimalIntegerLiteral]: [0x], [0o] or [0b] and at least one digit. *)
Definition NonDecimalIntegerLiteral (s : string) : option (Z * string) :=
  match s with
  | String "0" (String c rest) =>
      let base := if Ascii.eqb c "x" || Ascii.eqb c "X" then 16
                  else if Ascii.eqb c "o" || Ascii.eqb c "O" then 8
                  else if Ascii.eqb c "b" || Ascii.eqb c "B" then 2
                  else 0 in
      let '(m, count, rest') := digits base rest 0 0 in
      if Z.ltb 0 count then Some (m, rest') else None
  | _ => None
  end.

Definition sign (s : string) : bool * string :=
  match s with
  | String "+" rest => (false, rest)
  | String "-" rest => (true, rest)
  | _ => (false, s)
  end.

(** [ExponentPart], when there is a whole one at the head of [s]. *)
Definition ExponentPart (s : string) : Z * string :=
  match s with
  | String c rest =>
      if Ascii.eqb c "e" || Ascii.eqb c "E"
      then let '(negative, rest1) := sign rest in
           let '(e, count, rest2) := digits 10 rest1 0 0 in
           if Z.ltb 0 count then (if negative then - e else e, rest2) else (0, s)
      else (0, s)
  | EmptyString => (0, s)
  end.

(** [StrUnsignedDecimalLiteral], with the sign that was read before it. *)
Definition StrUnsignedDecimalLiteral (negative : bool) (s : string)
    : option (Number * string) :=
  match strip_prefix "Infinity" s with
  | Some rest => Some (Infinity negative, rest)
  | None =>
      let '(whole, n_whole, rest1) := digits 10 s 0 0 in
      match rest1 with
      | String "." rest2 =>
          let '(m, n_fraction, rest3) := digits 10 rest2 whole 0 in
          if Z.ltb 0 (n_whole + n_fraction)
          then let '(e, rest4) := ExponentPart rest3 in
               Some (Decimal negative m (e - n_fraction), rest4)
          else None
      | _ =>
          if Z.ltb 0 n_whole
          then let '(e, rest4) := ExponentPart rest1 in
               Some (Decimal negative whole e, rest4)
          else None
      end
  end.

Definition StrNumericLiteral (s : string) : option (Number * string) :=
  match NonDecimalIntegerLiteral s with
  | Some (m, rest) => Some (Decimal false m 0, rest)
  | None => let '(negative, rest) := sign s in StrUnsignedDecimalLiteral negative rest
  end.

(** [StringToNumber]: white space around an optional literal; the empty
    text is 0. *)
Definition StringToNumber (s : string) : Number :=
  match trim_start s with
  | EmptyString => Decimal false 0 0
  | text =>
      match StrNumericLiteral text with
      | Some (x, rest) =>
          match trim_start rest with
          | EmptyString => x
          | _ => NaN
          end
      | None => NaN
      end
  end.

Definition own_property (key : string) (fields : list (string * json)) : bool :=
  existsb (λ field, String.eqb field.1 key) fields.

(** [ToString] of a value, which for an array and an object is also its
    [ToPrimitive].  The digits of an integer stand for the text of the
    number: from 10^21 on JavaScript prints an exponent, which reads back as
    the same number. *)
Fixpoint ToString (v : json) : Result string :=
  match v with
  | JNull => Ok "null"
  | JBool b => Ok (if b then "true" else "false")
  | JNum n => Ok (JsonText.print_Z n)
  | JStr s => Ok s
  | JArr items =>
      (fix join (items : list json) : Result string :=
         match items with
         | [] => Ok ""
         | item :: rest =>
             match match item with
                   | JNull => Ok ""
                   | _ => ToString item
                   end with
             | Throw e => Throw e
             | Ok text =>
                 match rest with
                 | [] => Ok text
                 | _ :: _ =>
                     match join rest with
                     | Throw e => Throw e
                     | Ok texts => Ok (text ++ "," ++ texts)
                     end
                 end
             end
         end) items
  | JObj fields =>
      if own_property "toString" fields then Throw TypeError
      else Ok "[object Object]"
  end.

Definition ToNumber (v : json) : Result Number :=
  match v with
  | JNull => Ok (Decimal false 0 0)
  | JBool b => Ok (Decimal false (if b then 1 else 0) 0)
  | JNum n => Ok (Decimal (Z.ltb n 0) (Z.abs n) 0)
  | JStr s => Ok (StringToNumber s)
  | JArr _ | JObj _ =>
      match ToString v with
      | Ok text => Ok (StringToNumber text)
      | Throw e => Throw e
      end
  end.

(** The doubles just below an integer [n] with 1 <= n < 2^52 are
    [2^-(j-1)] apart, and the middle of the last gap rounds up to [n]. *)
Definition half_gap_below (n : Z) : Z :=
  let k := Z.log2 n in
  if Z.eqb n (2 ^ k) then 54 - k else 53 - k.

(** [x >= n] for a number [x], once rounded, and an integer [n] with
    1 <= n < 2^52. *)
Definition Number_ge (x : Number) (n : Z) : bool :=
  match x with
  | NaN => false
  | Infinity negative => negb negative
  | Decimal true _ _ => false
  | Decimal false m e =>
      let j := half_gap_below n in
      if Z.leb 0 e
      then Z.leb (n * 2 ^ j - 1) (m * 10 ^ e * 2 ^ j)
      else Z.leb ((n * 2 ^ j - 1) * 10 ^ (- e)) (m * 2 ^ j)
  end.

(** [v >= n] *)
Definition ge (v : json) (n : Z) : Result bool :=
  match ToNumber v with
  | Ok x => Ok (Number_ge x n)
  | Throw e => Throw e
  end.

End Loose.

Definition CURRENT_MIGRATION_VERSION : Z := 1.
Definition MIGRATION_VERSION_KEY : string := "__migrationVersion".

(** The sentinel test [existingVersion !== undefined && existingVersion >=
    CURRENT_MIGRATION_VERSION].  The sentinel is read with [get<number>], but
    nothing checks the stored value: the comparison is the one of
    JavaScript, which converts (the string ["1"], [true] and the array [[1]]
    compare as 1) and throws on an object that cannot be converted. *)
Definition version_reached (existingVersion : option json) : Result bool :=
  match existingVersion with
  | None => Ok false
  | Some v => Loose.ge v CURRENT_MIGRATION_VERSION
  end.

(** The migration is due: the destination holds no sentinel, or a number
    below the current version. *)
Definition sentinel_pending (storage : StorageContext) : Prop :=
  match get MIGRATION_VERSION_KEY (globalState storage) with
  | None => True
  | Some (JNum n) => n < CURRENT_MIGRATION_VERSION
  | Some _ => False
  end.

(** [existingFileValue !== undefined && existingFileValue !== ""] *)
Definition secret_present (existingFileValue : option json) : bool :=
  match existingFileValue with
  | None => false
  | Some (JStr s) => negb (String.eqb s "")
  | Some _ => true
  end.

Inductive Domain : Type := GlobalState | Secrets | WorkspaceState.

#[global] Instance Domain_eq_dec : EqDecision Domain.
Proof. solve_decision. Defined.

Definition store_of (d : Domain) (c : StorageContext) : ClineFileStorage :=
  match d with
  | GlobalState => globalState c
  | Secrets => secrets c
  | WorkspaceState => workspaceState c
  end.

Definition put_store (d : Domain) (s : ClineFileStorage) (c : StorageContext) : StorageContext :=
  match d with
  | GlobalState => mkContext s (secrets c) (workspaceState c)
  | Secrets => mkContext (globalState c) s (workspaceState c)
  | WorkspaceState => mkContext (globalState c) (secrets c) s
  end.

(** The state a run of the migration works on: the destination stores, the
    world, and the [result] object that the function mutates. *)
Record MigrationState : Type := mkState {
  st_storage : StorageContext;
  st_world : World;
  st_result : MigrationResult
}.

(** State and exceptions: a thrown error keeps the state reached so far. *)
Definition M (A : Type) : Type := MigrationState → Result A * MigrationState.

Definition ret {A} (a : A) : M A := λ st, (Ok a, st).

Definition bind {A B} (m : M A) (k : A → M B) : M B :=
  λ st, match m st with
        | (Ok a, st') => k a st'
        | (Throw e, st') => (Throw e, st')
        end.

Definition throw {A} (e : Error) : M A := λ st, (Throw e, st).

Definition try_catch {A} (body : M A) (handler : Error → M A) : M A :=
  λ st, match body st with
        | (Ok a, st') => (Ok a, st')
        | (Throw e, st') => handler e st'
        end.

(** A call into the legacy source: it touches no modelled state. *)
Definition call {A} (r : Result A) : M A := λ st, (r, st).

#[global] Instance M_ret : MRet M := @ret.
#[global] Instance M_bind : MBind M := λ A B k m, bind m k.

(** [for (const x of xs) body] *)
Fixpoint for_of {A} (xs : list A) (body : A → M unit) : M unit :=
  match xs with
  | [] => mret tt
  | x :: rest => body x ;; for_of rest body
  end.

Definition update_result (f : MigrationResult → MigrationResult) : M unit :=
  λ st, (Ok tt, mkState (st_storage st) (st_world st) (f (st_result st))).

Definition incr_globalStateCount : M unit :=
  update_result (λ r, mkResult (migrated r) (S (globalStateCount r)) (secretsCount r)
                               (workspaceStateCount r) (skippedExisting r)).
Definition incr_secretsCount : M unit :=
  update_result (λ r, mkResult (migrated r) (globalStateCount r) (S (secretsCount r))
                               (workspaceStateCount r) (skippedExisting r)).
Definition incr_workspaceStateCount : M unit :=
  update_result (λ r, mkResult (migrated r) (globalStateCount r) (secretsCount r)
                               (S (workspaceStateCount r)) (skippedExisting r)).
Definition incr_skippedExisting : M unit :=
  update_result (λ r, mkResult (migrated r) (globalStateCount r) (secretsCount r)
                               (workspaceStateCount r) (S (skippedExisting r))).
Definition set_migrated : M unit :=
  update_result (λ r, mkResult true (globalStateCount r) (secretsCount r)
                               (workspaceStateCount r) (skippedExisting r)).

Definition initial_result : MigrationResult := mkResult false 0 0 0 0.

(** [return result] *)
Definition return_result : M MigrationResult := λ st, (Ok (st_result st), st).

Section Migration.

Variable JSON_stringify : gmap string json → string.

(** The key tables of [@/shared/storage/state-keys] (not among the sources). *)
Variable GlobalStateAndSettingKeys : list string.
Variable SecretKeys : list string.
Variable LocalStateKeys : list string.

Definition storage_get (d : Domain) (key : string) : M (option json) :=
  λ st, (Ok (get key (store_of d (st_storage st))), st).

Definition storage_set (d : Domain) (key : string) (value : json) : M unit :=
  λ st, let '(s, w) := set JSON_stringify key (Some value)
                            (store_of d (st_storage st)) (st_world st) in
        (Ok tt, mkState (put_store d s (st_storage st)) w (st_result st)).

(** Body of the loop over [GlobalStateAndSettingKeys]. *)
Definition migrate_global_key (vscodeContext : vscode.ExtensionContext) (key : string) : M unit :=
  vscodeValue ← call (vscode.globalState_get vscodeContext key);
  match vscodeValue with
  | None => mret tt
  | Some v =>
      existingFileValue ← storage_get GlobalState key;
      match existingFileValue with
      | Some _ => incr_skippedExisting
      | None => storage_set GlobalState key v ;; incr_globalStateCount
      end
  end.

(** Body of the loop over [SecretKeys], with its own [try]/[catch]. *)
Definition migrate_secret_key (vscodeContext : vscode.ExtensionContext) (key : string) : M unit :=
  try_catch
    (vscodeValue ← call (vscode.secrets_get vscodeContext key);
     match vscodeValue with
     | None => mret tt
     | Some v =>
         if String.eqb v "" then mret tt
         else
           existingFileValue ← storage_get Secrets key;
           if secret_present existingFileValue then incr_skippedExisting
           else storage_set Secrets key (JStr v) ;; incr_secretsCount
     end)
    (λ error, mret tt).

(** Body of the loop over [LocalStateKeys]. *)
Definition migrate_workspace_key (vscodeContext : vscode.ExtensionContext) (key : string) : M unit :=
  vscodeValue ← call (vscode.workspaceState_get vscodeContext key);
  match vscodeValue with
  | None => mret tt
  | Some v =>
      existingFileValue ← storage_get WorkspaceState key;
      match existingFileValue with
      | Some _ => incr_skippedExisting
      | None => storage_set WorkspaceState key v ;; incr_workspaceStateCount
      end
  end.

Definition migrate_steps (vscodeContext : vscode.ExtensionContext) : M unit :=
  for_of GlobalStateAndSettingKeys (migrate_global_key vscodeContext) ;;
  for_of SecretKeys (migrate_secret_key vscodeContext) ;;
  for_of LocalStateKeys (migrate_workspace_key vscodeContext) ;;
  storage_set GlobalState MIGRATION_VERSION_KEY (JNum CURRENT_MIGRATION_VERSION) ;;
  set_migrated.

Definition migrate_run (vscodeContext : vscode.ExtensionContext) : M MigrationResult :=
  existingVersion ← storage_get GlobalState MIGRATION_VERSION_KEY;
  reached ← call (version_reached existingVersion);
  if (reached : bool) then return_result
  else
    try_catch (migrate_steps vscodeContext) (λ error, throw error) ;;
    return_result.

(** The promise of [migrateVSCodeStorageToFiles(vscodeContext, storage)] and
    the stores and world it leaves. *)
Definition migrateVSCodeStorageToFiles (vscodeContext : vscode.ExtensionContext)
    (storage : StorageContext) (w : World) : Result MigrationResult * (StorageContext * World) :=
  let '(r, st) := migrate_run vscodeContext (mkState storage w initial_result) in
  (r, (st_storage st, st_world st)).

(** *** The three loops seen as one

    The three loops follow one pattern.  [read_of] is the legacy read of a
    domain as its loop uses it (for secrets a failed read and an empty string
    both count as no value), [held] the test that the destination already has
    a value, and [merge_key] the common loop body. *)

Definition read_of (vscodeContext : vscode.ExtensionContext) (d : Domain) (key : string)
    : Result (option json) :=
  match d with
  | GlobalState => vscode.globalState_get vscodeContext key
  | Secrets =>
      match vscode.secrets_get vscodeContext key with
      | Ok (Some v) => if String.eqb v "" then Ok None else Ok (Some (JStr v))
      | Ok None => Ok None
      | Throw _ => Ok None
      end
  | WorkspaceState => vscode.workspaceState_get vscodeContext key
  end.

(** The value the migration would copy for a key, if any. *)
Definition legacy_value (vscodeContext : vscode.ExtensionContext) (d : Domain) (key : string)
    : option json :=
  match read_of vscodeContext d key with
  | Ok v => v
  | Throw _ => None
  end.

Definition held (d : Domain) (existingFileValue : option json) : bool :=
  match d with
  | Secrets => secret_present existingFileValue
  | _ => bool_decide (is_Some existingFileValue)
  end.

(** The key table of a domain. *)
Definition keys_of (d : Domain) : list string :=
  match d with
  | GlobalState => GlobalStateAndSettingKeys
  | Secrets => SecretKeys
  | WorkspaceState => LocalStateKeys
  end.

(** The destination [c'] differs from [c] only by keys of the key tables
    that were not held in [c] and now have their legacy value. *)
Definition additive (vscodeContext : vscode.ExtensionContext) (c c' : StorageContext) : Prop :=
  ∀ d k,
    data (store_of d c') !! k = data (store_of d c) !! k
    ∨ (k ∈ keys_of d
       ∧ held d (data (store_of d c) !! k) = false
       ∧ is_Some (legacy_value vscodeContext d k)
       ∧ data (store_of d c') !! k = legacy_value vscodeContext d k).

Definition incr_of (d : Domain) : M unit :=
  match d with
  | GlobalState => incr_globalStateCount
  | Secrets => incr_secretsCount
  | WorkspaceState => incr_workspaceStateCount
  end.

Definition merge_key (d : Domain) (vscodeContext : vscode.ExtensionContext) (key : string)
    : M unit :=
  λ st, match read_of vscodeContext d key with
        | Throw e => (Throw e, st)
        | Ok None => (Ok tt, st)
        | Ok (Some v) =>
            if held d (get key (store_of d (st_storage st)))
            then incr_skippedExisting st
            else (storage_set d key v ;; incr_of d) st
        end.

End Migration.

(** A key that the legacy source and the destination both have a value for,
    and a key that only the legacy source has a value for, in a domain. *)
Definition in_both (vscodeContext : vscode.ExtensionContext) (c : StorageContext)
    (d : Domain) (key : string) : bool :=
  bool_decide (is_Some (legacy_value vscodeContext d key))
  && held d (get key (store_of d c)).

Definition legacy_only (vscodeContext : vscode.ExtensionContext) (c : StorageContext)
    (d : Domain) (key : string) : bool :=
  bool_decide (is_Some (legacy_value vscodeContext d key))
  && negb (held d (get key (store_of d c))).

(** The counter of a domain. *)
Definition written_count (d : Domain) (r : MigrationResult) : nat :=
  match d with
  | GlobalState => globalStateCount r
  | Secrets => secretsCount r
  | WorkspaceState => workspaceStateCount r
  end.

Definition add_counts (d : Domain) (written skipped : nat) (r : MigrationResult)
    : MigrationResult :=
  match d with
  | GlobalState =>
      mkResult (migrated r) (globalStateCount r + written)%nat (secretsCount r)
               (workspaceStateCount r) (skippedExisting r + skipped)%nat
  | Secrets =>
      mkResult (migrated r) (globalStateCount r) (secretsCount r + written)%nat
               (workspaceStateCount r) (skippedExisting r + skipped)%nat
  | WorkspaceState =>
      mkResult (migrated r) (globalStateCount r) (secretsCount r)
               (workspaceStateCount r + written)%nat (skippedExisting r + skipped)%nat
  end.

(** ** The credential client *)

(** A promise as its caller observes it. *)
Inductive Promise (A : Type) : Type :=
| Resolved (a : A)
| Rejected (e : Error)
| Pending.
Arguments Resolved {A} a.
Arguments Rejected {A} e.
Arguments Pending {A}.

Module CredentialClient.

(** The response message of the broker; [env] may be missing. *)
Record GetResponse : Type := mkGetResponse {
  env : option (gmap string string)
}.

(** What [client.getServerCredentials({ value }, callback)] does: it throws,
    or it later calls back with an error, or with a response (possibly
    [undefined]), or it never calls back. *)
Inductive Call : Type :=
| CallThrows (err : Error)
| CallbackError (err : Error)
| CallbackResponse (response : option GetResponse)
| NoCallback.

Record Client : Type := mkClient {
  client_getServerCredentials : string → Call
}.

(** The process environment and the gRPC stack: [process.env
    .HOST_BRIDGE_ADDRESS], the constant [HOSTBRIDGE_PORT] of
    [@/standalone/hostbridge-client] (not among the sources) as it prints, and
    what loading the proto definition and constructing the client for an
    address gives. *)
Record Host : Type := mkHost {
  HOST_BRIDGE_ADDRESS : option string;
  HOSTBRIDGE_PORT : string;
  new_CredentialServiceClient : string → Result Client
}.

(** [process.env.HOST_BRIDGE_ADDRESS || `127.0.0.1:${HOSTBRIDGE_PORT}`] *)
Definition address (host : Host) : string :=
  match HOST_BRIDGE_ADDRESS host with
  | Some a => if String.eqb a "" then "127.0.0.1:" ++ HOSTBRIDGE_PORT host else a
  | None => "127.0.0.1:" ++ HOSTBRIDGE_PORT host
  end.

(** [getClient]; the module variable [credentialClient] is passed along. *)
Definition getClient (host : Host) (credentialClient : option Client)
    : Result Client * option Client :=
  match credentialClient with
  | Some client => (Ok client, credentialClient)
  | None =>
      match new_CredentialServiceClient host (address host) with
      | Ok client => (Ok client, Some client)
      | Throw err => (Throw err, None)
      end
  end.

(** [response?.env || {}] *)
Definition env_or_empty (response : option GetResponse) : gmap string string :=
  match response with
  | Some r => default ∅ (env r)
  | None => ∅
  end.

Definition getServerCredentials (host : Host) (serverName : string)
    (credentialClient : option Client) : Promise (gmap string string) * option Client :=
  match getClient host credentialClient with
  | (Ok client, cc) =>
      match client_getServerCredentials client serverName with
      | CallThrows err => (Resolved ∅, cc)
      | CallbackError err => (Resolved ∅, cc)
      | CallbackResponse response => (Resolved (env_or_empty response), cc)
      | NoCallback => (Pending, cc)
      end
  | (Throw err, cc) => (Resolved ∅, cc)
  end.

Definition resetCredentialClient (credentialClient : option Client) : option Client :=
  None.

End CredentialClient.

(** ** The VSCode host-bridge stubs *)

Module VscodeHostBridge.

Record StringRequest : Type := mkStringRequest { value : string }.

Record ServerCredentials : Type := mkServerCredentials {
  serverName : string;
  env : gmap string string
}.

Inductive EmptyRequest : Type := mkEmptyRequest.

Section Handlers.

(** Whatever state the extension host holds: a handler is a function from a
    request and that state to its promise and the state it leaves. *)
Variable HostState : Type.

Definition getServerCredentials (request : StringRequest) (h : HostState)
    : Promise ServerCredentials * HostState :=
  (Resolved (mkServerCredentials (value request) ∅), h).

Definition storeServerCredentials (_request : ServerCredentials) (h : HostState)
    : Promise EmptyRequest * HostState :=
  (Resolved mkEmptyRequest, h).

Definition deleteServerCredentials (_request : StringRequest) (h : HostState)
    : Promise EmptyRequest * HostState :=
  (Resolved mkEmptyRequest, h).

(** A request to the credential service and its dispatch to the handler
    registered for it. *)
Inductive Request : Type :=
| GetServerCredentials (request : StringRequest)
| StoreServerCredentials (request : ServerCredentials)
| DeleteServerCredentials (request : StringRequest).

Definition serve (r : Request) (h : HostState) : HostState :=
  match r with
  | GetServerCredentials request => snd (getServerCredentials request h)
  | StoreServerCredentials request => snd (storeServerCredentials request h)
  | DeleteServerCredentials request => snd (deleteServerCredentials request h)
  end.

Definition serve_all (history : list Request) (h : HostState) : HostState :=
  foldl (λ h r, serve r h) h history.

End Handlers.

End VscodeHostBridge.

(** ** Callers of the store

    What [setBatch] is documented to replace: [_set] run once per entry of
    [Object.entries(entries)], in order. *)
Definition set_each (JSON_stringify : gmap string json → string)
    (entries : list (string * option json)) (s : ClineFileStorage) (w : World)
    : ClineFileStorage * World :=
  foldl (λ sw e, _set JSON_stringify e.1 e.2 sw.1 sw.2) (s, w) entries.

(** ** A concrete scenario

    Stores, a legacy source and key tables to run the model on. *)

Module Scenario.

Definition GlobalStateAndSettingKeys : list string := ["theme"; "mode"].
Definition SecretKeys : list string := ["apiKey"; "token"; "blank"].
Definition LocalStateKeys : list string := ["tabs"].

Definition w0 : World := mkWorld ∅ ∅ [].

Definition empty_store (name path : string) (mode : option Z) : ClineFileStorage :=
  mkStore name ∅ path mode.

(** The destination: the global store already has a ["mode"], the secret
    store an empty ["token"]. *)
Definition ctx0 : StorageContext :=
  mkContext
    (mkStore "globalState" {[ "mode" := JStr "act" ]} "/data/globalState.json" None)
    (mkStore "secrets" {[ "token" := JStr "" ]} "/data/secrets.json" (Some 384))
    (empty_store "workspaceState" "/data/workspaceState.json" None).

(** The legacy source: reading the secret ["apiKey"] fails. *)
Definition legacy : vscode.ExtensionContext :=
  vscode.mkExtensionContext
    (λ key, if String.eqb key "theme" then Ok (Some (JStr "dark"))
            else if String.eqb key "mode" then Ok (Some (JStr "plan"))
            else Ok None)
    (λ key, if String.eqb key "apiKey" then Throw (mkError "keychain locked")
            else if String.eqb key "token" then Ok (Some "tok-1")
            else if String.eqb key "blank" then Ok (Some "")
            else Ok None)
    (λ key, if String.eqb key "tabs" then Ok (Some (JArr [JNum 1; JNum 2]))
            else Ok None).

(** The same source with a failing read of the global ["mode"]. *)
Definition broken_legacy : vscode.ExtensionContext :=
  vscode.mkExtensionContext
    (λ key, if String.eqb key "mode" then Throw (mkError "memento unavailable")
            else vscode.globalState_get legacy key)
    (vscode.secrets_get legacy)
    (vscode.workspaceState_get legacy).

Definition migrate (vscodeContext : vscode.ExtensionContext)
    (storage : StorageContext) (w : World) :=
  migrateVSCodeStorageToFiles JsonText.stringify
    GlobalStateAndSettingKeys SecretKeys LocalStateKeys vscodeContext storage w.

(** A destination without the empty ["token"]. *)
Definition ctx1 : StorageContext :=
  mkContext (globalState ctx0)
    (empty_store "secrets" "/data/secrets.json" (Some 384))
    (workspaceState ctx0).

(** A nested value. *)
Definition nested : json :=
  JObj [("a", JArr [JNum 1; JStr "x"; JNull]); ("b", JObj [("c", JBool true)])].

Definition host : CredentialClient.Host :=
  CredentialClient.mkHost None "26041"
    (λ address,
       Ok (CredentialClient.mkClient
             (λ serverName,
                if String.eqb serverName "gmail"
                then CredentialClient.CallbackResponse
                       (Some (CredentialClient.mkGetResponse
                                (Some {[ "GMAIL_TOKEN" := "t" ]})))
                else CredentialClient.CallbackError (mkError "NOT_FOUND")))).

(** A store that holds one key, and a world whose global-state file is not
    JSON. *)
Definition store0 : ClineFileStorage :=
  mkStore "globalState" {[ "b" := JNum 2 ]} "/data/globalState.json" None.

Definition w_corrupt : World :=
  mkWorld {[ "/data/globalState.json" := "{ not json" ]} ∅ [].

(** The client that [host] creates, and a host on which no client can be
    created. *)
Definition client : CredentialClient.Client :=
  CredentialClient.mkClient
    (λ serverName,
       if String.eqb serverName "gmail"
       then CredentialClient.CallbackResponse
              (Some (CredentialClient.mkGetResponse (Some {[ "GMAIL_TOKEN" := "t" ]})))
       else CredentialClient.CallbackError (mkError "NOT_FOUND")).

Definition host_down : CredentialClient.Host :=
  CredentialClient.mkHost (Some "") "26041" (λ address, Throw (mkError "UNAVAILABLE")).

End Scenario.

(** * Properties *)

(** ** The store *)

Section StorageFacts.

Variable JSON_stringify : gmap string json → string.
Variable JSON_parse : string → option (gmap string json).

Lemma has_property_false k (d : gmap string json) :
  has_property k d = false → d !! k = None.
Proof.
  unfold has_property. intros H. apply orb_false_iff in H as [H _].
  apply bool_decide_eq_false in H. by apply eq_None_not_Some.
Qed.

Lemma has_property_own k (d : gmap string json) :
  own_key k → d !! k = None → has_property k d = false.
Proof.
  intros Hown Hk. unfold has_property, inherited.
  rewrite (bool_decide_eq_false_2 _ Hown), orb_false_r.
  apply bool_decide_eq_false. rewrite Hk. by intros [? ?].
Qed.

Lemma setBatch_loop_changed entries d :
  (setBatch_loop entries d true).2 = true.
Proof.
  revert d. induction entries as [|[k [v|]] rest IH]; intros d; simpl; auto.
  destruct (has_property k d); auto.
Qed.

Lemma setBatch_loop_flag entries d c :
  (setBatch_loop entries d c).2 = c || batch_changes entries d.
Proof.
  unfold batch_changes. revert d c.
  induction entries as [|[k [v|]] rest IH]; intros d c; simpl.
  - by rewrite orb_false_r.
  - rewrite setBatch_loop_changed. by rewrite orb_true_r.
  - unfold entry_changes at 1; simpl.
    destruct (has_property k d).
    + rewrite setBatch_loop_changed. by rewrite orb_true_r.
    + simpl. apply IH.
Qed.

Lemma setBatch_loop_other entries d c k :
  k ∉ entries.*1 → (setBatch_loop entries d c).1 !! k = d !! k.
Proof.
  revert d c. induction entries as [|[k0 [v|]] rest IH]; intros d c Hk; simpl in *; auto.
  - apply not_elem_of_cons in Hk as [Hne Hk].
    rewrite IH by done. by rewrite lookup_insert_ne.
  - apply not_elem_of_cons in Hk as [Hne Hk].
    destruct (has_property k0 d); rewrite IH by done; auto.
    by rewrite lookup_delete_ne.
Qed.

Lemma setBatch_loop_entry entries d c k v :
  NoDup entries.*1 → (k, v) ∈ entries → (setBatch_loop entries d c).1 !! k = v.
Proof.
  revert d c. induction entries as [|[k0 v0] rest IH]; intros d c Hnd Hin.
  - by apply elem_of_nil in Hin.
  - simpl in Hnd. apply NoDup_cons in Hnd as [Hk0 Hnd].
    apply elem_of_cons in Hin as [Heq|Hin].
    + injection Heq as -> ->. destruct v0 as [v0|]; simpl.
      * rewrite setBatch_loop_other by done. apply lookup_insert_eq.
      * destruct (has_property k0 d) eqn:Hs;
          rewrite setBatch_loop_other by done.
        -- apply lookup_delete_eq.
        -- by apply has_property_false.
    + destruct v0 as [v0|]; simpl; [by apply IH|].
      destruct (has_property k0 d); by apply IH.
Qed.

Lemma fire_all_world store keys w :
  fire_all store keys w =
  mkWorld (files w) (broken w) (trace w ++ map (Fire store) keys)%list.
Proof.
  revert w. induction keys as [|k keys IH]; intros w; simpl.
  - destruct w; simpl. by rewrite app_nil_r.
  - rewrite IH. simpl. by rewrite <- app_assoc.
Qed.

Lemma writeToDisk_trace s w :
  trace (writeToDisk JSON_stringify s w) =
  (trace w ++ [Persist (fsPath s) (JSON_stringify (data s)) (write_mode s)])%list.
Proof. unfold writeToDisk. by destruct (decide (fsPath s ∈ broken w)). Qed.

Lemma writeToDisk_broken s w :
  broken (writeToDisk JSON_stringify s w) = broken w.
Proof. unfold writeToDisk. by destruct (decide (fsPath s ∈ broken w)). Qed.

Lemma writeToDisk_files s w :
  fsPath s ∉ broken w →
  files (writeToDisk JSON_stringify s w) !! fsPath s = Some (JSON_stringify (data s)).
Proof.
  intros Hok. unfold writeToDisk.
  destruct (decide (fsPath s ∈ broken w)); [done|]. simpl. apply lookup_insert_eq.
Qed.


(** C4, where the code does it: a value set under a key other than
    [__proto__] on a freshly constructed store is read back by a new instance
    built on the same path, when the file was not there or held the text of a
    dictionary, the write goes through and the stored mapping is
    JSON-serializable (parsing its text gives it back). *)
Theorem roundtrip_persistence (filePath : string) (name1 name2 : option string)
    (options1 options2 : option ClineFileStorageOptions)
    (k : string) (v : json) (w : World) :
  let s0 := new_ClineFileStorage JSON_parse filePath name1 options1 w in
  let s1 := (set JSON_stringify k (Some v) s0 w).1 in
  let w1 := (set JSON_stringify k (Some v) s0 w).2 in
  assignable_key k →
  (files w !! filePath = None
   ∨ ∃ text d, files w !! filePath = Some text ∧ JSON_parse text = Some d) →
  filePath ∉ broken w →
  JSON_parse (JSON_stringify (data s1)) = Some (data s1) →
  get k (new_ClineFileStorage JSON_parse filePath name2 options2 w1) = Some v.
Proof.
  intros s0 s1 w1 _ _ Hok Hjson.
  assert (files w1 !! filePath = Some (JSON_stringify (data s1))) as Hfile.
  { apply (writeToDisk_files s1 w Hok). }
  assert (broken w1 = broken w) as Hbroken.
  { apply writeToDisk_broken. }
  unfold get, _get, new_ClineFileStorage, readFromDisk. simpl.
  rewrite Hbroken, Hfile, Hjson.
  destruct (decide (filePath ∈ broken w)); [done|].
  apply lookup_insert_eq.
Qed.

(** C5: [_delete(k)] and [_set(k, undefined)], the implementations of
    [delete(k)] and [set(k, undefined)], leave the same store and the same
    world: the same in-memory mapping and the same file content. *)
Theorem delete_is_set_undefined (k : string) (s : ClineFileStorage) (w : World) :
  _delete JSON_stringify k s w = _set JSON_stringify k None s w
  ∧ data (_delete JSON_stringify k s w).1 = data (_set JSON_stringify k None s w).1
  ∧ files (_delete JSON_stringify k s w).2 = files (_set JSON_stringify k None s w).2.
Proof. done. Qed.

(** *** Further properties of the store *)

Lemma writeToDisk_other_files s w p :
  p ≠ fsPath s → files (writeToDisk JSON_stringify s w) !! p = files w !! p.
Proof.
  intros Hp. unfold writeToDisk.
  destruct (decide (fsPath s ∈ broken w)); [done|]. simpl.
  by apply lookup_insert_ne.
Qed.

Lemma writeToDisk_failed s w :
  fsPath s ∈ broken w → files (writeToDisk JSON_stringify s w) = files w.
Proof. intros Hb. unfold writeToDisk. by destruct (decide (fsPath s ∈ broken w)). Qed.

Lemma _set_fsPath k value s w : fsPath (_set JSON_stringify k value s w).1 = fsPath s.
Proof. by destruct value. Qed.

Lemma _set_written k value s w :
  fsPath s ∉ broken w →
  files (_set JSON_stringify k value s w).2 !! fsPath s
  = Some (JSON_stringify (data (_set JSON_stringify k value s w).1)).
Proof.
  intros Hok. destruct value as [v|]; unfold _set; simpl.
  - exact (writeToDisk_files (with_data (<[k:=v]> (data s)) s) w Hok).
  - exact (writeToDisk_files (with_data (delete k (data s)) s) w Hok).
Qed.

Lemma _set_broken k value s w : broken (_set JSON_stringify k value s w).2 = broken w.
Proof. destruct value; apply writeToDisk_broken. Qed.


(** X2: [_set] writes through: when the path is writable the file of the
    store holds the text of the new mapping; no other file changes; the set
    of failing paths is as before. *)
Theorem set_writes_through (k : string) (value : option json)
    (s : ClineFileStorage) (w : World) :
  fsPath s ∉ broken w →
  let s' := (_set JSON_stringify k value s w).1 in
  let w' := (_set JSON_stringify k value s w).2 in
  files w' !! fsPath s = Some (JSON_stringify (data s'))
  ∧ (∀ p, p ≠ fsPath s → files w' !! p = files w !! p)
  ∧ broken w' = broken w.
Proof.
  intros Hok s' w'. subst s' w'.
  destruct value as [v|]; unfold _set; simpl.
  - split; [exact (writeToDisk_files (with_data (<[k:=v]> (data s)) s) w Hok)|].
    split; [|apply writeToDisk_broken].
    intros p Hne. by apply writeToDisk_other_files.
  - split; [exact (writeToDisk_files (with_data (delete k (data s)) s) w Hok)|].
    split; [|apply writeToDisk_broken].
    intros p Hne. by apply writeToDisk_other_files.
Qed.


Lemma set_each_cons k value entries s w :
  set_each JSON_stringify ((k, value) :: entries) s w
  = set_each JSON_stringify entries (_set JSON_stringify k value s w).1
      (_set JSON_stringify k value s w).2.
Proof. done. Qed.

Lemma set_each_store entries s w c :
  (set_each JSON_stringify entries s w).1
  = with_data (setBatch_loop entries (data s) c).1 s.
Proof.
  revert s w c. induction entries as [|[k [v|]] entries IH]; intros s w c.
  - by destruct s.
  - rewrite set_each_cons. simpl. by rewrite (IH _ _ true).
  - rewrite set_each_cons. simpl.
    destruct (has_property k (data s)) eqn:Hk.
    + by rewrite (IH _ _ true).
    + rewrite (IH _ _ c). simpl.
      rewrite delete_id; [done|]. by apply has_property_false.
Qed.

Lemma set_each_world entries s w :
  broken (set_each JSON_stringify entries s w).2 = broken w
  ∧ length (persists (trace (set_each JSON_stringify entries s w).2))
    = (length (persists (trace w)) + length entries)%nat
  ∧ (entries ≠ [] →
     files (set_each JSON_stringify entries s w).2
     = if decide (fsPath s ∈ broken w) then files w
       else <[fsPath s := JSON_stringify (data (set_each JSON_stringify entries s w).1)]>
              (files w)).
Proof.
  revert s w. induction entries as [|[k value] entries IH]; intros s w.
  - simpl. split; [done|]. split; [lia|done].
  - rewrite set_each_cons.
    set (s1 := (_set JSON_stringify k value s w).1).
    set (w1 := (_set JSON_stringify k value s w).2).
    destruct (IH s1 w1) as (Hb & Hp & Hf).
    assert (fsPath s1 = fsPath s) as Hpath by apply _set_fsPath.
    assert (broken w1 = broken w) as Hb1 by apply writeToDisk_broken.
    assert (trace w1 = (trace w ++ [Persist (fsPath s) (JSON_stringify (data s1))
                                       (write_mode s)])%list) as Ht1.
    { subst s1 w1. destruct value; unfold _set; simpl; by rewrite writeToDisk_trace. }
    split; [by rewrite Hb|]. split.
    + rewrite Hp, Ht1. unfold persists. rewrite List.filter_app, length_app. simpl. lia.
    + intros _. destruct entries as [|e entries].
      * simpl. subst w1 s1.
        destruct value; unfold _set, writeToDisk; simpl;
          by destruct (decide (fsPath s ∈ broken w)).
      * rewrite Hf by done. rewrite Hpath, Hb1.
        destruct (decide (fsPath s ∈ broken w)) as [Hbr|Hbr].
        -- subst w1. destruct value; unfold _set; simpl;
             by rewrite writeToDisk_failed.
        -- assert (files w1 = <[fsPath s := JSON_stringify (data s1)]> (files w)) as ->.
           { subst w1 s1. destruct value; unfold _set, writeToDisk; simpl;
               by destruct (decide (fsPath s ∈ broken w)). }
           apply insert_insert_eq.
Qed.



End StorageFacts.

(** ** The migration *)

Section MigrationFacts.

Variable JSON_stringify : gmap string json → string.

Lemma for_of_cons {A} (x : A) xs body st :
  for_of (x :: xs) body st =
  match body x st with
  | (Ok _, st') => for_of xs body st'
  | (Throw e, st') => (Throw e, st')
  end.
Proof. done. Qed.

Lemma for_of_ext {A} (xs : list A) body1 body2 :
  (∀ x st, body1 x st = body2 x st) → ∀ st, for_of xs body1 st = for_of xs body2 st.
Proof.
  intros Hext. induction xs as [|x xs IH]; intros st; [done|].
  rewrite !for_of_cons, Hext. destruct (body2 x st) as [[[]|e] st']; auto.
Qed.

(** Each loop body of the source is the common body at its domain. *)
Lemma migrate_global_key_merge vs key st :
  migrate_global_key JSON_stringify vs key st = merge_key JSON_stringify GlobalState vs key st.
Proof.
  unfold migrate_global_key, merge_key, read_of, held, mbind, M_bind, bind, call. simpl.
  destruct (vscode.globalState_get vs key) as [[v|]|e]; try done.
  by destruct (get key (globalState (st_storage st))).
Qed.

Lemma migrate_workspace_key_merge vs key st :
  migrate_workspace_key JSON_stringify vs key st
  = merge_key JSON_stringify WorkspaceState vs key st.
Proof.
  unfold migrate_workspace_key, merge_key, read_of, held, mbind, M_bind, bind, call. simpl.
  destruct (vscode.workspaceState_get vs key) as [[v|]|e]; try done.
  by destruct (get key (workspaceState (st_storage st))).
Qed.

Lemma migrate_secret_key_merge vs key st :
  migrate_secret_key JSON_stringify vs key st = merge_key JSON_stringify Secrets vs key st.
Proof.
  unfold migrate_secret_key, merge_key, read_of, held, try_catch,
    mbind, M_bind, bind, call, mret, M_ret, ret. simpl.
  destruct (vscode.secrets_get vs key) as [[v|]|e]; try done.
  destruct (String.eqb v ""); [done|].
  by destruct (secret_present (get key (secrets (st_storage st)))).
Qed.

(** The in-memory mapping of a domain in a state. *)
Local Abbreviation ddata d st := (data (store_of d (st_storage st))).

Lemma store_of_put_store d s c : store_of d (put_store d s c) = s.
Proof. by destruct d. Qed.

Lemma store_of_put_store_ne d d' s c :
  d' ≠ d → store_of d' (put_store d s c) = store_of d' c.
Proof. by destruct d, d'. Qed.

Lemma held_legacy vs d key v : legacy_value vs d key = Some v → held d (Some v) = true.
Proof.
  unfold legacy_value, read_of. destruct d; simpl; try done.
  destruct (vscode.secrets_get vs key) as [[s|]|e]; try done.
  destruct (String.eqb s "") eqn:Hs; [done|].
  intros [= <-]. simpl. by rewrite Hs.
Qed.

Lemma add_counts_add d a b a' b' r :
  add_counts d a b (add_counts d a' b' r) = add_counts d (a' + a) (b' + b) r.
Proof. destruct d; simpl; f_equal; lia. Qed.

Lemma add_counts_0 d r : add_counts d 0 0 r = r.
Proof. destruct d, r; simpl; f_equal; lia. Qed.

(** One run of the common loop body, spelled out. *)
Lemma merge_key_step d vs key st :
  merge_key JSON_stringify d vs key st =
  match read_of vs d key with
  | Throw e => (Throw e, st)
  | Ok None => (Ok tt, st)
  | Ok (Some v) =>
      if held d (ddata d st !! key)
      then (Ok tt, mkState (st_storage st) (st_world st) (add_counts d 0 1 (st_result st)))
      else
        let s := with_data (<[key := v]> (ddata d st)) (store_of d (st_storage st)) in
        (Ok tt, mkState (put_store d s (st_storage st))
                        (writeToDisk JSON_stringify s (st_world st))
                        (add_counts d 1 0 (st_result st)))
  end.
Proof.
  unfold merge_key. destruct (read_of vs d key) as [[v|]|e]; try done.
  unfold get, _get. destruct (held d (ddata d st !! key)).
  - unfold incr_skippedExisting, update_result. do 2 f_equal.
    destruct d; simpl; f_equal; lia.
  - unfold mbind, M_bind, bind, storage_set, set, _set. simpl.
    destruct d; simpl;
      unfold incr_globalStateCount, incr_secretsCount, incr_workspaceStateCount,
        update_result; simpl; do 3 f_equal; lia.
Qed.

(** Whatever its outcome, a loop leaves the other domains alone, and changes
    a key of its own domain only by giving a key that was not held its
    legacy value. *)
Lemma merge_loop_frame d vs keys st r st' :
  for_of keys (merge_key JSON_stringify d vs) st = (r, st') →
  (∀ d', d' ≠ d → store_of d' (st_storage st') = store_of d' (st_storage st))
  ∧ (∀ k, ddata d st' !! k = ddata d st !! k
          ∨ (k ∈ keys ∧ held d (ddata d st !! k) = false
             ∧ is_Some (legacy_value vs d k)
             ∧ ddata d st' !! k = legacy_value vs d k)).
Proof.
  revert st. induction keys as [|key keys IH]; intros st Hrun.
  - injection Hrun as <- <-. auto.
  - rewrite for_of_cons, merge_key_step in Hrun.
    destruct (read_of vs d key) as [[v|]|e] eqn:Hread.
    + assert (legacy_value vs d key = Some v) as Hleg
        by (unfold legacy_value; by rewrite Hread).
      destruct (held d (ddata d st !! key)) eqn:Hheld.
      * apply IH in Hrun as [Hother Hown]. simpl in *. split; [done|].
        intros k. destruct (Hown k) as [->|(? & ? & ? & ?)]; [by left|].
        right. repeat split; try done. by apply list_elem_of_further.
      * apply IH in Hrun as [Hother Hown]. simpl in *. split.
        { intros d' Hd'. rewrite Hother by done. by apply store_of_put_store_ne. }
        intros k. rewrite store_of_put_store in Hown. simpl in Hown.
        destruct (decide (k = key)) as [->|Hne].
        -- right. split; [apply list_elem_of_here|]. split; [done|].
           rewrite Hleg. split; [by eexists|].
           destruct (Hown key) as [Heq|(_ & Hh & _)].
           ++ by rewrite Heq, lookup_insert_eq.
           ++ rewrite lookup_insert_eq in Hh.
              by rewrite (held_legacy _ _ _ _ Hleg) in Hh.
        -- destruct (Hown k) as [Heq|(? & Hh & ? & ?)].
           ++ left. by rewrite Heq, lookup_insert_ne.
           ++ rewrite lookup_insert_ne in Hh by done. right.
              repeat split; try done. by apply list_elem_of_further.
    + apply IH in Hrun as [Hother Hown]. split; [done|].
      intros k. destruct (Hown k) as [->|(? & ? & ? & ?)]; [by left|].
      right. repeat split; try done. by apply list_elem_of_further.
    + injection Hrun as <- <-. auto.
Qed.

Lemma in_both_data vs c c' d k :
  data (store_of d c') !! k = data (store_of d c) !! k →
  in_both vs c' d k = in_both vs c d k ∧ legacy_only vs c' d k = legacy_only vs c d k.
Proof. unfold in_both, legacy_only, get, _get. by intros ->. Qed.

(** A loop whose reads all return runs to its end: each key that was not
    held and has a legacy value ends up with that value, and when the keys are
    pairwise distinct the counters grow by the number of keys of each kind. *)
Lemma merge_loop_ok d vs keys st :
  (∀ k e, k ∈ keys → read_of vs d k ≠ Throw e) →
  ∃ st', for_of keys (merge_key JSON_stringify d vs) st = (Ok tt, st')
    ∧ (∀ k, k ∈ keys → held d (ddata d st !! k) = false →
            is_Some (legacy_value vs d k) →
            ddata d st' !! k = legacy_value vs d k)
    ∧ (NoDup keys →
       st_result st' =
       add_counts d (length (List.filter (legacy_only vs (st_storage st) d) keys))
                    (length (List.filter (in_both vs (st_storage st) d) keys))
                    (st_result st)).
Proof.
  revert st. induction keys as [|key keys IH]; intros st Hreads.
  - exists st. split; [done|]. split.
    + intros k Hk. by apply elem_of_nil in Hk.
    + intros _. simpl. by rewrite add_counts_0.
  - assert (∀ k e, k ∈ keys → read_of vs d k ≠ Throw e) as Hreads'
      by (intros k e Hk; apply Hreads; by apply list_elem_of_further).
    rewrite for_of_cons, merge_key_step.
    destruct (read_of vs d key) as [[v|]|e] eqn:Hread.
    + assert (legacy_value vs d key = Some v) as Hleg
        by (unfold legacy_value; by rewrite Hread).
      destruct (held d (ddata d st !! key)) eqn:Hheld.
      * cbv beta iota zeta.
        match goal with |- context [for_of keys _ ?x] => set (st1 := x) end.
        destruct (IH st1 Hreads') as (st' & Hrun & Hval & Hcnt).
        exists st'. split; [done|]. split.
        -- intros k Hk Hh Hl. apply elem_of_cons in Hk as [->|Hk]; [congruence|].
           by apply Hval.
        -- intros [Hkey Hnd]%NoDup_cons. rewrite (Hcnt Hnd). subst st1. simpl.
           rewrite add_counts_add. unfold in_both at 2, legacy_only at 2.
           unfold get, _get. rewrite Hheld, Hleg. simpl. done.
      * cbv beta iota zeta.
        match goal with |- context [for_of keys _ ?x] => set (st1 := x) end.
        destruct (IH st1 Hreads') as (st' & Hrun & Hval & Hcnt).
        assert (ddata d st1 = <[key := v]> (ddata d st)) as Hdata
          by (subst st1; simpl; by rewrite store_of_put_store).
        exists st'. split; [done|]. split.
        -- intros k Hk Hh Hl.
           destruct (decide (k = key)) as [->|Hne].
           ++ destruct (merge_loop_frame _ _ _ _ _ _ Hrun) as [_ Hown].
              destruct (Hown key) as [Heq|(_ & Hh' & _)].
              ** by rewrite Heq, Hdata, lookup_insert_eq.
              ** rewrite Hdata, lookup_insert_eq in Hh'.
                 by rewrite (held_legacy _ _ _ _ Hleg) in Hh'.
           ++ apply elem_of_cons in Hk as [->|Hk]; [done|].
              apply Hval; try done. by rewrite Hdata, lookup_insert_ne.
        -- intros [Hkey Hnd]%NoDup_cons. rewrite (Hcnt Hnd).
           assert (∀ k, In k keys →
                        in_both vs (st_storage st1) d k = in_both vs (st_storage st) d k
                        ∧ legacy_only vs (st_storage st1) d k
                          = legacy_only vs (st_storage st) d k) as Hsame.
           { intros k Hk%list_elem_of_In. apply in_both_data.
             rewrite Hdata, lookup_insert_ne; [done|]. by intros ->. }
           rewrite (List.filter_ext_in (in_both vs (st_storage st1) d)
                      (in_both vs (st_storage st) d))
             by (intros k Hk; apply (Hsame k Hk)).
           rewrite (List.filter_ext_in (legacy_only vs (st_storage st1) d)
                      (legacy_only vs (st_storage st) d))
             by (intros k Hk; apply (Hsame k Hk)).
           subst st1. simpl. rewrite add_counts_add.
           unfold in_both at 2, legacy_only at 2.
           unfold get, _get. rewrite Hheld, Hleg. simpl. done.
    + assert (legacy_value vs d key = None) as Hleg
        by (unfold legacy_value; by rewrite Hread).
      destruct (IH st Hreads') as (st' & Hrun & Hval & Hcnt).
      exists st'. split; [done|]. split.
      * intros k Hk Hh Hl. apply elem_of_cons in Hk as [->|Hk]; [|by apply Hval].
        rewrite Hleg in Hl. by destruct Hl.
      * intros [Hkey Hnd]%NoDup_cons. rewrite (Hcnt Hnd). simpl.
        unfold in_both at 2, legacy_only at 2. rewrite Hleg. simpl. done.
    + exfalso. eapply Hreads; [apply list_elem_of_here|done].
Qed.

(** A loop throws only what one of its reads threw, and it does throw when
    one of them does. *)
Lemma merge_loop_throw_inv d vs keys st e st' :
  for_of keys (merge_key JSON_stringify d vs) st = (Throw e, st') →
  ∃ k, k ∈ keys ∧ read_of vs d k = Throw e.
Proof.
  revert st. induction keys as [|key keys IH]; intros st Hrun; [done|].
  rewrite for_of_cons, merge_key_step in Hrun.
  destruct (read_of vs d key) as [[v|]|e0] eqn:Hread.
  - destruct (held d (ddata d st !! key));
      apply IH in Hrun as (k & ? & ?); exists k; split; try done;
      by apply list_elem_of_further.
  - apply IH in Hrun as (k & ? & ?). exists k. split; [|done].
    by apply list_elem_of_further.
  - injection Hrun as -> <-. exists key. split; [apply list_elem_of_here|done].
Qed.

Lemma merge_loop_ok_inv d vs keys st st' :
  for_of keys (merge_key JSON_stringify d vs) st = (Ok tt, st') →
  ∀ k e, k ∈ keys → read_of vs d k ≠ Throw e.
Proof.
  revert st. induction keys as [|key keys IH]; intros st Hrun k e Hk.
  - by apply elem_of_nil in Hk.
  - rewrite for_of_cons, merge_key_step in Hrun.
    apply elem_of_cons in Hk as [->|Hk].
    + destruct (read_of vs d key) as [[v|]|e0]; done.
    + destruct (read_of vs d key) as [[v|]|e0]; [| |done].
      * destruct (held d (ddata d st !! key)); by apply (IH _ Hrun).
      * by apply (IH _ Hrun).
Qed.

(** Whatever its outcome, a loop leaves [migrated] and the write counters
    of the other domains alone. *)
Lemma merge_loop_result d vs keys st r st' :
  for_of keys (merge_key JSON_stringify d vs) st = (r, st') →
  migrated (st_result st') = migrated (st_result st)
  ∧ ∀ d', d' ≠ d → written_count d' (st_result st') = written_count d' (st_result st).
Proof.
  revert st. induction keys as [|key keys IH]; intros st Hrun.
  - by injection Hrun as <- <-.
  - rewrite for_of_cons, merge_key_step in Hrun.
    destruct (read_of vs d key) as [[v|]|e].
    + destruct (held d (ddata d st !! key));
        apply IH in Hrun as [Hm Hc]; simpl in *;
        (split; [rewrite Hm; by destruct d
                |intros d' Hd'; rewrite (Hc d' Hd'); by destruct d, d']).
    + by apply IH in Hrun.
    + by injection Hrun as <- <-.
Qed.

Lemma written_count_add_counts d a b r :
  written_count d (add_counts d a b r) = (written_count d r + a)%nat.
Proof. by destruct d. Qed.

Lemma skippedExisting_add_counts d a b r :
  skippedExisting (add_counts d a b r) = (skippedExisting r + b)%nat.
Proof. by destruct d. Qed.

(** The write counter of a loop never goes down, and it goes up when the
    loop completes over a key that was not held and has a legacy value. *)
Lemma merge_loop_written_mono d vs keys st r st' :
  for_of keys (merge_key JSON_stringify d vs) st = (r, st') →
  (written_count d (st_result st) ≤ written_count d (st_result st'))%nat.
Proof.
  revert st. induction keys as [|key keys IH]; intros st Hrun.
  - by injection Hrun as <- <-.
  - rewrite for_of_cons, merge_key_step in Hrun.
    destruct (read_of vs d key) as [[v|]|e].
    + destruct (held d (ddata d st !! key));
        apply IH in Hrun; simpl in Hrun;
        rewrite written_count_add_counts in Hrun; lia.
    + by apply IH in Hrun.
    + by injection Hrun as <- <-.
Qed.

Lemma merge_loop_written_some d vs keys st st' k :
  for_of keys (merge_key JSON_stringify d vs) st = (Ok tt, st') →
  k ∈ keys → held d (ddata d st !! k) = false → is_Some (legacy_value vs d k) →
  (written_count d (st_result st) < written_count d (st_result st'))%nat.
Proof.
  revert st. induction keys as [|key keys IH]; intros st Hrun Hk Hheld Hleg.
  - by apply elem_of_nil in Hk.
  - rewrite for_of_cons, merge_key_step in Hrun.
    destruct (decide (k = key)) as [->|Hne].
    + unfold legacy_value in Hleg.
      destruct (read_of vs d key) as [[v|]|e]; [|by destruct Hleg|done].
      rewrite Hheld in Hrun. apply merge_loop_written_mono in Hrun.
      simpl in Hrun. rewrite written_count_add_counts in Hrun. lia.
    + apply elem_of_cons in Hk as [->|Hk]; [done|].
      destruct (read_of vs d key) as [[v|]|e]; [| |done].
      * destruct (held d (ddata d st !! key)).
        -- apply IH in Hrun; try done. simpl in Hrun.
           rewrite written_count_add_counts in Hrun. lia.
        -- apply IH in Hrun; try done.
           ++ simpl in Hrun. rewrite written_count_add_counts in Hrun. lia.
           ++ simpl. rewrite store_of_put_store. simpl.
              by rewrite lookup_insert_ne.
      * by apply IH in Hrun.
Qed.

Variable GlobalStateAndSettingKeys : list string.
Variable SecretKeys : list string.
Variable LocalStateKeys : list string.

Local Abbreviation keys_of :=
  (keys_of GlobalStateAndSettingKeys SecretKeys LocalStateKeys).
Local Abbreviation additive :=
  (additive GlobalStateAndSettingKeys SecretKeys LocalStateKeys).
Local Abbreviation steps :=
  (migrate_steps JSON_stringify GlobalStateAndSettingKeys SecretKeys LocalStateKeys).
Local Abbreviation run :=
  (migrate_run JSON_stringify GlobalStateAndSettingKeys SecretKeys LocalStateKeys).
Local Abbreviation migrate :=
  (migrateVSCodeStorageToFiles JSON_stringify
     GlobalStateAndSettingKeys SecretKeys LocalStateKeys).
Local Abbreviation write_sentinel :=
  (storage_set JSON_stringify GlobalState MIGRATION_VERSION_KEY
     (JNum CURRENT_MIGRATION_VERSION) ;; set_migrated).

Lemma secrets_never_throw vs k e : read_of vs Secrets k ≠ Throw e.
Proof.
  unfold read_of. destruct (vscode.secrets_get vs k) as [[s|]|e0]; try done.
  by destruct (String.eqb s "").
Qed.

Lemma migrate_steps_unfold vs st :
  steps vs st =
  match for_of GlobalStateAndSettingKeys (merge_key JSON_stringify GlobalState vs) st with
  | (Throw e, st1) => (Throw e, st1)
  | (Ok _, st1) =>
      match for_of SecretKeys (merge_key JSON_stringify Secrets vs) st1 with
      | (Throw e, st2) => (Throw e, st2)
      | (Ok _, st2) =>
          match for_of LocalStateKeys (merge_key JSON_stringify WorkspaceState vs) st2 with
          | (Throw e, st3) => (Throw e, st3)
          | (Ok _, st3) => write_sentinel st3
          end
      end
  end.
Proof.
  unfold migrate_steps, mbind, M_bind, bind.
  rewrite (for_of_ext _ _ _ (migrate_global_key_merge vs)).
  destruct (for_of GlobalStateAndSettingKeys _ st) as [[[]|e] st1]; [|done].
  rewrite (for_of_ext _ _ _ (migrate_secret_key_merge vs)).
  destruct (for_of SecretKeys _ st1) as [[[]|e] st2]; [|done].
  rewrite (for_of_ext _ _ _ (migrate_workspace_key_merge vs)).
  by destruct (for_of LocalStateKeys _ st2) as [[[]|e] st3].
Qed.

Lemma migrate_run_unfold vs st :
  run vs st =
  match version_reached (get MIGRATION_VERSION_KEY (globalState (st_storage st))) with
  | Ok true => (Ok (st_result st), st)
  | Ok false =>
      match steps vs st with
      | (Ok _, st') => (Ok (st_result st'), st')
      | (Throw e, st') => (Throw e, st')
      end
  | Throw e => (Throw e, st)
  end.
Proof.
  unfold migrate_run, mbind, M_bind, bind, storage_get, call, try_catch, throw,
    return_result. simpl.
  destruct (version_reached _) as [[]|e0]; [done| |done].
  by destruct (steps vs st) as [[[]|e] st'].
Qed.

(** The last step: the sentinel is written and [migrated] is set; nothing
    else changes. *)
Lemma write_sentinel_spec st :
  ∃ st', write_sentinel st = (Ok tt, st')
    ∧ ddata GlobalState st' = <[MIGRATION_VERSION_KEY := JNum CURRENT_MIGRATION_VERSION]>
                                (ddata GlobalState st)
    ∧ secrets (st_storage st') = secrets (st_storage st)
    ∧ workspaceState (st_storage st') = workspaceState (st_storage st)
    ∧ st_result st' = mkResult true (globalStateCount (st_result st))
                        (secretsCount (st_result st))
                        (workspaceStateCount (st_result st))
                        (skippedExisting (st_result st)).
Proof. eexists. split; [reflexivity|]. done. Qed.

Lemma additive_refl vs c : additive vs c c.
Proof. intros d k. by left. Qed.

Lemma additive_trans vs c1 c2 c3 :
  additive vs c1 c2 → additive vs c2 c3 → additive vs c1 c3.
Proof.
  intros H12 H23 d k.
  destruct (H23 d k) as [H3|(Hk & Hh & Hl & H3)];
    destruct (H12 d k) as [H2|(Hk' & Hh' & Hl' & H2)].
  - left. congruence.
  - right. rewrite H3. done.
  - right. rewrite <- H2. done.
  - destruct Hl' as [v Hv]. rewrite H2, Hv in Hh.
    by rewrite (held_legacy _ _ _ _ Hv) in Hh.
Qed.

Lemma merge_loop_additive d vs st r st' :
  for_of (keys_of d) (merge_key JSON_stringify d vs) st = (r, st') →
  additive vs (st_storage st) (st_storage st').
Proof.
  intros [Hother Hown]%merge_loop_frame d' k.
  destruct (decide (d' = d)) as [->|Hne]; [apply Hown|].
  left. by rewrite Hother.
Qed.

(** Whatever the outcome of the steps, the destination changes additively up
    to the sentinel write, which only happens on success. *)
Lemma steps_frame vs st r st' :
  steps vs st = (r, st') →
  (∀ e, r = Throw e → additive vs (st_storage st) (st_storage st'))
  ∧ (∀ x, r = Ok x →
       ∃ st3, additive vs (st_storage st) (st_storage st3)
              ∧ write_sentinel st3 = (Ok tt, st')).
Proof.
  rewrite migrate_steps_unfold.
  destruct (for_of GlobalStateAndSettingKeys _ st) as [[[]|e1] st1] eqn:H1.
  2:{ intros [= <- <-]. split; [|done]. intros _ _.
      apply (merge_loop_additive GlobalState _ _ _ _ H1). }
  apply (merge_loop_additive GlobalState) in H1.
  destruct (for_of SecretKeys _ st1) as [[[]|e2] st2] eqn:H2.
  2:{ intros [= <- <-]. split; [|done]. intros _ _.
      eapply additive_trans; [done|].
      apply (merge_loop_additive Secrets _ _ _ _ H2). }
  apply (merge_loop_additive Secrets) in H2.
  destruct (for_of LocalStateKeys _ st2) as [[[]|e3] st3] eqn:H3.
  2:{ intros [= <- <-]. split; [|done]. intros _ _.
      eapply additive_trans; [done|]. eapply additive_trans; [done|].
      apply (merge_loop_additive WorkspaceState _ _ _ _ H3). }
  apply (merge_loop_additive WorkspaceState) in H3.
  intros Hw. split.
  - intros e ->. by destruct (write_sentinel_spec st3) as (? & Hs & _); rewrite Hs in Hw.
  - intros [] ->. exists st3. split; [|done].
    eapply additive_trans; [done|]. by eapply additive_trans.
Qed.

Lemma filter_in_both_store vs c c' d keys :
  store_of d c' = store_of d c →
  List.filter (in_both vs c' d) keys = List.filter (in_both vs c d) keys
  ∧ List.filter (legacy_only vs c' d) keys = List.filter (legacy_only vs c d) keys.
Proof.
  intros Heq.
  split; apply List.filter_ext; intros k; apply in_both_data; by rewrite Heq.
Qed.

(** When no read of the global or workspace table throws, the steps run to
    the sentinel write; [st3] is the state just before it. *)
Lemma steps_ok vs st :
  (∀ k e, k ∈ GlobalStateAndSettingKeys → vscode.globalState_get vs k ≠ Throw e) →
  (∀ k e, k ∈ LocalStateKeys → vscode.workspaceState_get vs k ≠ Throw e) →
  ∃ st3 st',
    steps vs st = (Ok tt, st') ∧ write_sentinel st3 = (Ok tt, st')
    ∧ additive vs (st_storage st) (st_storage st3)
    ∧ (∀ d k, k ∈ keys_of d → held d (ddata d st !! k) = false →
              is_Some (legacy_value vs d k) →
              ddata d st3 !! k = legacy_value vs d k)
    ∧ (∀ d k, k ∈ keys_of d → held d (ddata d st !! k) = false →
              is_Some (legacy_value vs d k) →
              (written_count d (st_result st) < written_count d (st_result st3))%nat)
    ∧ (∀ d, NoDup (keys_of d) →
            written_count d (st_result st3)
            = (written_count d (st_result st)
               + length (List.filter (legacy_only vs (st_storage st) d) (keys_of d)))%nat)
    ∧ (NoDup GlobalStateAndSettingKeys → NoDup SecretKeys → NoDup LocalStateKeys →
       skippedExisting (st_result st3)
       = (skippedExisting (st_result st)
          + length (List.filter (in_both vs (st_storage st) GlobalState)
                      GlobalStateAndSettingKeys)
          + length (List.filter (in_both vs (st_storage st) Secrets) SecretKeys)
          + length (List.filter (in_both vs (st_storage st) WorkspaceState)
                      LocalStateKeys))%nat)
    ∧ migrated (st_result st3) = migrated (st_result st).
Proof.
  intros HG HL.
  destruct (merge_loop_ok GlobalState vs GlobalStateAndSettingKeys st HG)
    as (st1 & H1 & Hval1 & Hcnt1).
  destruct (merge_loop_ok Secrets vs SecretKeys st1
              (λ k e _, secrets_never_throw vs k e)) as (st2 & H2 & Hval2 & Hcnt2).
  destruct (merge_loop_ok WorkspaceState vs LocalStateKeys st2 HL)
    as (st3 & H3 & Hval3 & Hcnt3).
  destruct (write_sentinel_spec st3) as (st' & Hw & _).
  destruct (merge_loop_frame _ _ _ _ _ _ H1) as [Ho1 _].
  destruct (merge_loop_frame _ _ _ _ _ _ H2) as [Ho2 _].
  destruct (merge_loop_frame _ _ _ _ _ _ H3) as [Ho3 _].
  destruct (merge_loop_result _ _ _ _ _ _ H1) as [Hm1 Hr1].
  destruct (merge_loop_result _ _ _ _ _ _ H2) as [Hm2 Hr2].
  destruct (merge_loop_result _ _ _ _ _ _ H3) as [Hm3 Hr3].
  destruct (filter_in_both_store vs (st_storage st) (st_storage st1) Secrets SecretKeys)
    as [Hib2 Hlo2]; [by apply Ho1|].
  destruct (filter_in_both_store vs (st_storage st) (st_storage st2)
              WorkspaceState LocalStateKeys) as [Hib3 Hlo3].
  { by rewrite (Ho2 WorkspaceState), (Ho1 WorkspaceState). }
  exists st3, st'. split; [|split; [done|split; [|split; [|split; [|split; [|split]]]]]].
  - by rewrite migrate_steps_unfold, H1, H2, H3.
  - eapply additive_trans; [apply (merge_loop_additive GlobalState _ _ _ _ H1)|].
    eapply additive_trans; [apply (merge_loop_additive Secrets _ _ _ _ H2)|].
    apply (merge_loop_additive WorkspaceState _ _ _ _ H3).
  - intros [] k Hk Hh Hl; simpl in Hk.
    + rewrite (Ho3 GlobalState), (Ho2 GlobalState) by done. by apply Hval1.
    + rewrite (Ho3 Secrets) by done. apply Hval2; try done.
      by rewrite (Ho1 Secrets).
    + apply Hval3; try done.
      by rewrite (Ho2 WorkspaceState), (Ho1 WorkspaceState).
  - intros [] k Hk Hh Hl; simpl in Hk.
    + rewrite (Hr3 GlobalState), (Hr2 GlobalState) by done.
      by apply (merge_loop_written_some _ _ _ _ _ k H1).
    + rewrite (Hr3 Secrets), <- (Hr1 Secrets) by done.
      apply (merge_loop_written_some _ _ _ _ _ k H2); try done.
      by rewrite (Ho1 Secrets).
    + rewrite <- (Hr1 WorkspaceState), <- (Hr2 WorkspaceState) by done.
      apply (merge_loop_written_some _ _ _ _ _ k H3); try done.
      by rewrite (Ho2 WorkspaceState), (Ho1 WorkspaceState).
  - intros [] Hnd; simpl in Hnd.
    + rewrite (Hr3 GlobalState), (Hr2 GlobalState), (Hcnt1 Hnd) by done.
      apply written_count_add_counts.
    + rewrite (Hr3 Secrets), (Hcnt2 Hnd), Hlo2 by done.
      rewrite written_count_add_counts. by rewrite (Hr1 Secrets).
    + rewrite (Hcnt3 Hnd), Hlo3, written_count_add_counts.
      by rewrite (Hr2 WorkspaceState), (Hr1 WorkspaceState).
  - intros NG NS NL. rewrite (Hcnt3 NL), (Hcnt2 NS), (Hcnt1 NG), Hib2, Hib3.
    by rewrite !skippedExisting_add_counts.
  - by rewrite Hm3, Hm2, Hm1.
Qed.

Lemma steps_ok_inv vs st st' :
  steps vs st = (Ok tt, st') →
  (∀ k e, k ∈ GlobalStateAndSettingKeys → vscode.globalState_get vs k ≠ Throw e)
  ∧ (∀ k e, k ∈ LocalStateKeys → vscode.workspaceState_get vs k ≠ Throw e).
Proof.
  rewrite migrate_steps_unfold.
  destruct (for_of GlobalStateAndSettingKeys _ st) as [[[]|e1] st1] eqn:H1; [|done].
  destruct (for_of SecretKeys _ st1) as [[[]|e2] st2] eqn:H2; [|done].
  destruct (for_of LocalStateKeys _ st2) as [[[]|e3] st3] eqn:H3; [|done].
  intros _. split.
  - apply (merge_loop_ok_inv GlobalState _ _ _ _ H1).
  - apply (merge_loop_ok_inv WorkspaceState _ _ _ _ H3).
Qed.

Lemma steps_throw_inv vs st e st' :
  steps vs st = (Throw e, st') →
  ∃ k, (k ∈ GlobalStateAndSettingKeys ∧ vscode.globalState_get vs k = Throw e)
       ∨ (k ∈ LocalStateKeys ∧ vscode.workspaceState_get vs k = Throw e).
Proof.
  rewrite migrate_steps_unfold.
  destruct (for_of GlobalStateAndSettingKeys _ st) as [[[]|e1] st1] eqn:H1.
  2:{ intros [= <- <-]. apply merge_loop_throw_inv in H1 as (k & ? & ?).
      exists k. by left. }
  destruct (for_of SecretKeys _ st1) as [[[]|e2] st2] eqn:H2.
  2:{ apply merge_loop_throw_inv in H2 as (k & _ & Hk).
      by apply secrets_never_throw in Hk. }
  destruct (for_of LocalStateKeys _ st2) as [[[]|e3] st3] eqn:H3.
  2:{ intros [= <- <-]. apply merge_loop_throw_inv in H3 as (k & ? & ?).
      exists k. by right. }
  by destruct (write_sentinel_spec st3) as (? & -> & _).
Qed.

Lemma migrate_unfold vs c w :
  migrate vs c w =
  match version_reached (get MIGRATION_VERSION_KEY (globalState c)) with
  | Ok true => (Ok initial_result, (c, w))
  | Ok false =>
      match steps vs (mkState c w initial_result) with
      | (Ok _, st') => (Ok (st_result st'), (st_storage st', st_world st'))
      | (Throw e, st') => (Throw e, (st_storage st', st_world st'))
      end
  | Throw e => (Throw e, (c, w))
  end.
Proof.
  unfold migrateVSCodeStorageToFiles. rewrite migrate_run_unfold. simpl.
  destruct (version_reached _) as [[]|e0]; [done| |done].
  by destruct (steps vs _) as [[[]|e] st'].
Qed.

(** After the sentinel write the version is reached. *)
Lemma write_sentinel_reached st3 st' :
  write_sentinel st3 = (Ok tt, st') →
  version_reached (get MIGRATION_VERSION_KEY (globalState (st_storage st'))) = Ok true.
Proof.
  destruct (write_sentinel_spec st3) as (st'' & -> & Hdata & _).
  intros [= <-]. unfold get, _get. simpl in Hdata.
  by rewrite Hdata, lookup_insert_eq.
Qed.

(** C2: once a call has resolved, a second call, whatever the legacy source
    then holds, resolves at once with [migrated = false] and all counters
    zero, and leaves the stores, the files and the trace as they are. *)
Theorem migrate_idempotent vs vs2 c w r c' w' :
  migrate vs c w = (Ok r, (c', w')) →
  migrate vs2 c' w' = (Ok initial_result, (c', w')).
Proof.
  rewrite !migrate_unfold.
  destruct (version_reached (get MIGRATION_VERSION_KEY (globalState c)))
    as [[]|e0] eqn:Hv; [| |done].
  - intros [= <- <- <-]. by rewrite Hv.
  - destruct (steps vs _) as [[[]|e] st'] eqn:Hsteps; [|done].
    intros [= <- <- <-].
    destruct (steps_frame _ _ _ _ Hsteps) as [_ Hok].
    destruct (Hok tt eq_refl) as (st3 & _ & Hw).
    by rewrite (write_sentinel_reached _ _ Hw).
Qed.

(** What a completed run leaves, in one statement: the state [st3] before the
    sentinel write and the state after it. *)
Lemma migrate_completed vs c w r c' w' :
  migrate vs c w = (Ok r, (c', w')) → migrated r = true →
  version_reached (get MIGRATION_VERSION_KEY (globalState c)) = Ok false
  ∧ ∃ st3,
      additive vs c (st_storage st3)
      ∧ (∀ d k, k ∈ keys_of d → held d (data (store_of d c) !! k) = false →
                is_Some (legacy_value vs d k) →
                ddata d st3 !! k = legacy_value vs d k)
      ∧ data (globalState c')
        = <[MIGRATION_VERSION_KEY := JNum CURRENT_MIGRATION_VERSION]> (ddata GlobalState st3)
      ∧ secrets c' = secrets (st_storage st3)
      ∧ workspaceState c' = workspaceState (st_storage st3)
      ∧ (∀ d, NoDup (keys_of d) →
              written_count d r = length (List.filter (legacy_only vs c d) (keys_of d)))
      ∧ (NoDup GlobalStateAndSettingKeys → NoDup SecretKeys → NoDup LocalStateKeys →
         skippedExisting r
         = (length (List.filter (in_both vs c GlobalState) GlobalStateAndSettingKeys)
            + length (List.filter (in_both vs c Secrets) SecretKeys)
            + length (List.filter (in_both vs c WorkspaceState) LocalStateKeys))%nat).
Proof.
  rewrite migrate_unfold.
  destruct (version_reached (get MIGRATION_VERSION_KEY (globalState c)))
    as [[]|e0] eqn:Hv; [| |done].
  { by intros [= <- <- <-]. }
  destruct (steps vs _) as [[[]|e] st'] eqn:Hsteps; [|done].
  intros [= <- <- <-] _. split; [done|].
  destruct (steps_ok_inv _ _ _ Hsteps) as [HG HL].
  destruct (steps_ok vs (mkState c w initial_result) HG HL)
    as (st3 & st'' & Hsteps' & Hw & Hadd & Hval & _ & Hcnt & Hskip & _).
  rewrite Hsteps in Hsteps'. injection Hsteps' as <-.
  destruct (write_sentinel_spec st3) as (st'' & Hw' & Hdata & Hsec & Hwork & Hres).
  rewrite Hw in Hw'. injection Hw' as <-.
  exists st3. do 5 (split; [done|]). split.
  - intros d Hnd. specialize (Hcnt d Hnd). rewrite Hres.
    destruct d; simpl in *; lia.
  - intros NG NS NL. rewrite Hres. simpl. rewrite (Hskip NG NS NL). simpl. lia.
Qed.


Lemma sentinel_pending_due c :
  sentinel_pending c →
  version_reached (get MIGRATION_VERSION_KEY (globalState c)) = Ok false.
Proof.
  unfold sentinel_pending, version_reached.
  destruct (get MIGRATION_VERSION_KEY (globalState c)) as [[| |n| | |]|]; try done.
  unfold CURRENT_MIGRATION_VERSION, Loose.ge. simpl. intros Hn.
  destruct (Z.ltb_spec n 0) as [Hneg|Hpos]; [done|].
  by replace n with 0 by lia.
Qed.



(** C9: a secret whose legacy value reads as the empty string is passed
    over: its loop body changes neither the stores nor any counter, and the
    whole call leaves its destination value as it was.  And a destination
    secret equal to the empty string does not count as held: a non-empty
    legacy value is written over it and counted in [secretsCount], not in
    [skippedExisting]. *)
Theorem empty_secret_is_absent vs k :
  (vscode.secrets_get vs k = Ok (Some "") →
   (∀ st, migrate_secret_key JSON_stringify vs k st = (Ok tt, st))
   ∧ (∀ c w, get k (secrets (migrate vs c w).2.1) = get k (secrets c)))
  ∧ (∀ v st,
       vscode.secrets_get vs k = Ok (Some v) → v ≠ "" →
       get k (secrets (st_storage st)) = Some (JStr "") →
       ∃ st', migrate_secret_key JSON_stringify vs k st = (Ok tt, st')
              ∧ get k (secrets (st_storage st')) = Some (JStr v)
              ∧ secretsCount (st_result st') = S (secretsCount (st_result st))
              ∧ skippedExisting (st_result st') = skippedExisting (st_result st)).
Proof.
  split.
  - intros Hread.
    assert (read_of vs Secrets k = Ok None) as Hr
      by (unfold read_of; by rewrite Hread).
    assert (legacy_value vs Secrets k = None) as Hleg
      by (unfold legacy_value; by rewrite Hr).
    split.
    + intros st. by rewrite migrate_secret_key_merge, merge_key_step, Hr.
    + intros c w. rewrite migrate_unfold.
      destruct (version_reached _) as [[]|e0]; [done| |done].
      destruct (steps vs _) as [[[]|e] st'] eqn:Hsteps; simpl.
      * destruct (steps_frame _ _ _ _ Hsteps) as [_ Hok].
        destruct (Hok tt eq_refl) as (st3 & Hadd & Hw).
        destruct (write_sentinel_spec st3) as (st'' & Hw' & _ & Hsec & _).
        rewrite Hw in Hw'. injection Hw' as <-. rewrite Hsec.
        destruct (Hadd Secrets k) as [Heq|(_ & _ & Hl & _)]; [done|].
        rewrite Hleg in Hl. by destruct Hl.
      * destruct (steps_frame _ _ _ _ Hsteps) as [Hadd _].
        destruct (Hadd e eq_refl Secrets k) as [Heq|(_ & _ & Hl & _)]; [done|].
        rewrite Hleg in Hl. by destruct Hl.
  - intros v st Hread Hv Hdest.
    assert (read_of vs Secrets k = Ok (Some (JStr v))) as Hr.
    { unfold read_of. rewrite Hread. by apply String.eqb_neq in Hv as ->. }
    rewrite migrate_secret_key_merge, merge_key_step, Hr.
    unfold get, _get in Hdest. simpl. rewrite Hdest. simpl.
    eexists. split; [done|]. simpl. unfold get, _get. simpl.
    rewrite lookup_insert_eq. repeat split; lia.
Qed.

(** *** Further properties of the migration *)

(** Whatever its outcome, a call changes the destination additively, and
    besides that at most by the sentinel write. *)
Lemma migrate_frame vs c w res c' w' :
  migrate vs c w = (res, (c', w')) →
  ∃ c3, additive vs c c3
        ∧ (c' = c3
           ∨ (data (globalState c')
              = <[MIGRATION_VERSION_KEY := JNum CURRENT_MIGRATION_VERSION]>
                  (data (globalState c3))
              ∧ secrets c' = secrets c3
              ∧ workspaceState c' = workspaceState c3)).
Proof.
  rewrite migrate_unfold.
  destruct (version_reached _) as [[]|e0].
  1, 3: intros [= <- <- <-]; exists c; (split; [apply additive_refl|by left]).
  destruct (steps vs _) as [[[]|e] st'] eqn:Hsteps; intros [= <- <- <-].
  - destruct (steps_frame _ _ _ _ Hsteps) as [_ Hok].
    destruct (Hok tt eq_refl) as (st3 & Hadd & Hw).
    destruct (write_sentinel_spec st3) as (st'' & Hw' & Hdata & Hsec & Hwork & _).
    rewrite Hw in Hw'. injection Hw' as <-.
    exists (st_storage st3). split; [done|]. by right.
  - destruct (steps_frame _ _ _ _ Hsteps) as [Hadd _].
    exists (st_storage st'). split; [by apply (Hadd e)|by left].
Qed.

(** X8: when the migration runs to completion and the sentinel key is not a
    key of the global table, every key of a table that has a legacy value and
    no held destination value ends up with its legacy value. *)
Theorem legacy_only_keys_are_copied vs c w r c' w' :
  MIGRATION_VERSION_KEY ∉ GlobalStateAndSettingKeys →
  migrate vs c w = (Ok r, (c', w')) → migrated r = true →
  ∀ d k v, k ∈ keys_of d →
           held d (get k (store_of d c)) = false →
           legacy_value vs d k = Some v →
           get k (store_of d c') = Some v.
Proof.
  intros Hsent Hrun Hmig d k v Hk Hheld Hleg.
  destruct (migrate_completed _ _ _ _ _ _ Hrun Hmig)
    as (_ & st3 & _ & Hval & Hglobal & Hsec & Hwork & _).
  assert (ddata d st3 !! k = Some v) as H3.
  { rewrite <- Hleg. apply Hval; [done|done|]. rewrite Hleg. by eexists. }
  unfold get, _get. destruct d; simpl in *.
  - rewrite Hglobal, lookup_insert_ne; [done|]. by intros <-.
  - by rewrite Hsec.
  - by rewrite Hwork.
Qed.

(** X9: the migration never removes a key: whatever the outcome of the call,
    a key that a destination store held before is still held after. *)
Theorem migration_never_removes vs c w res c' w' d k :
  migrate vs c w = (res, (c', w')) →
  is_Some (get k (store_of d c)) →
  is_Some (get k (store_of d c')).
Proof.
  intros Hrun Hsome. unfold get, _get in *.
  destruct (migrate_frame _ _ _ _ _ _ Hrun) as (c3 & Hadd & Hlast).
  assert (is_Some (data (store_of d c3) !! k)) as H3.
  { destruct (Hadd d k) as [->|(_ & _ & Hl & ->)]; done. }
  destruct Hlast as [->|(Hglobal & Hsec & Hwork)]; [done|].
  destruct d; simpl in *.
  - rewrite Hglobal. apply lookup_insert_is_Some'. by right.
  - by rewrite Hsec.
  - by rewrite Hwork.
Qed.

(** X10: the migration only touches the keys of its tables and the
    sentinel: whatever the outcome, every other key of every destination
    store reads as before. *)
Theorem migration_leaves_other_keys vs c w res c' w' d k :
  migrate vs c w = (res, (c', w')) →
  k ∉ keys_of d →
  (d = GlobalState → k ≠ MIGRATION_VERSION_KEY) →
  get k (store_of d c') = get k (store_of d c).
Proof.
  intros Hrun Hk Hsent. unfold get, _get.
  destruct (migrate_frame _ _ _ _ _ _ Hrun) as (c3 & Hadd & Hlast).
  assert (data (store_of d c3) !! k = data (store_of d c) !! k) as H3.
  { by destruct (Hadd d k) as [->|(? & _)]. }
  rewrite <- H3.
  destruct Hlast as [->|(Hglobal & Hsec & Hwork)]; [done|].
  destruct d; simpl in *.
  - rewrite Hglobal. apply lookup_insert_ne. intros Heq. by apply Hsent.
  - by rewrite Hsec.
  - by rewrite Hwork.
Qed.

Variable JSON_parse : string → option (gmap string json).

(** The sentinel write persists the global store it leaves. *)
Lemma write_sentinel_world st3 :
  ∃ st', write_sentinel st3 = (Ok tt, st')
    ∧ st_world st'
      = writeToDisk JSON_stringify (globalState (st_storage st')) (st_world st3).
Proof. eexists. split; reflexivity. Qed.

(** X11: a completed migration survives a restart: when the file of the
    global store could be written and parsing the text of the final global
    mapping gives it back, a destination whose global store is built anew
    from that file is already at the current version, so the next call
    returns at once and changes nothing. *)
Theorem migration_survives_restart vs c w r c' w' :
  migrate vs c w = (Ok r, (c', w')) → migrated r = true →
  fsPath (globalState c') ∉ broken w' →
  JSON_parse (JSON_stringify (data (globalState c'))) = Some (data (globalState c')) →
  ∀ name options secrets' workspaceState' vs2,
    let reloaded :=
      mkContext (new_ClineFileStorage JSON_parse (fsPath (globalState c')) name options w')
                secrets' workspaceState' in
    data (globalState reloaded) = data (globalState c')
    ∧ migrate vs2 reloaded w' = (Ok initial_result, (reloaded, w')).
Proof.
  intros Hrun Hmig Hok Hjson name options secrets' workspaceState' vs2 reloaded.
  rewrite migrate_unfold in Hrun.
  destruct (version_reached (get MIGRATION_VERSION_KEY (globalState c)))
    as [[]|e0] eqn:Hv; [| |done].
  { injection Hrun as <- <- <-. done. }
  destruct (steps vs _) as [[[]|e] st'] eqn:Hsteps; [|done].
  injection Hrun as <- <- <-.
  destruct (steps_frame _ _ _ _ Hsteps) as [_ Hsteps_ok].
  destruct (Hsteps_ok tt eq_refl) as (st3 & _ & Hw).
  destruct (write_sentinel_world st3) as (st2 & Hw' & Hworld).
  rewrite Hw in Hw'. injection Hw' as <-.
  assert (data (globalState reloaded) = data (globalState (st_storage st'))) as Hdata.
  { subst reloaded. unfold new_ClineFileStorage, readFromDisk. simpl.
    destruct (decide (fsPath (globalState (st_storage st')) ∈ broken (st_world st')))
      as [Hb|_]; [done|].
    rewrite Hworld, writeToDisk_files; [by rewrite Hjson|].
    by rewrite Hworld, writeToDisk_broken in Hok. }
  split; [done|].
  rewrite migrate_unfold. unfold get, _get. rewrite Hdata.
  pose proof (write_sentinel_reached _ _ Hw) as Hreached.
  unfold get, _get in Hreached. by rewrite Hreached.
Qed.

Local Abbreviation total r :=
  (globalStateCount r + secretsCount r + workspaceStateCount r + skippedExisting r)%nat.

(** Each key of a loop adds at most one to the counters. *)
Lemma merge_loop_total d vs keys st res st' :
  for_of keys (merge_key JSON_stringify d vs) st = (res, st') →
  (total (st_result st') ≤ total (st_result st) + length keys)%nat.
Proof.
  revert st. induction keys as [|key keys IH]; intros st Hrun.
  - injection Hrun as <- <-. simpl. lia.
  - rewrite for_of_cons, merge_key_step in Hrun.
    destruct (read_of vs d key) as [[v|]|e].
    + destruct (held d (ddata d st !! key));
        apply IH in Hrun; simpl in *; destruct d; simpl in *; lia.
    + apply IH in Hrun. simpl. lia.
    + injection Hrun as <- <-. simpl. lia.
Qed.

(** X12: no key is counted twice: the four counters of a resolved call add
    up to at most the number of entries of the three key tables. *)
Theorem counters_bounded vs c w r c' w' :
  migrate vs c w = (Ok r, (c', w')) →
  (globalStateCount r + secretsCount r + workspaceStateCount r + skippedExisting r
   ≤ length GlobalStateAndSettingKeys + length SecretKeys + length LocalStateKeys)%nat.
Proof.
  rewrite migrate_unfold.
  destruct (version_reached _) as [[]|e0]; [| |done].
  { intros [= <- <- <-]. simpl. lia. }
  destruct (steps vs _) as [[[]|e] st'] eqn:Hsteps; [|done].
  intros [= <- <- <-]. rewrite migrate_steps_unfold in Hsteps.
  destruct (for_of GlobalStateAndSettingKeys _ _) as [[[]|e1] st1] eqn:H1; [|done].
  destruct (for_of SecretKeys _ st1) as [[[]|e2] st2] eqn:H2; [|done].
  destruct (for_of LocalStateKeys _ st2) as [[[]|e3] st3] eqn:H3; [|done].
  apply merge_loop_total in H1, H2, H3. simpl in H1.
  destruct (write_sentinel_spec st3) as (st4 & Hw' & _ & _ & _ & Hres).
  rewrite Hsteps in Hw'. injection Hw' as <-. rewrite Hres. simpl. lia.
Qed.

(** A loop persists once per key it writes. *)
Lemma merge_loop_persists d vs keys st res st' :
  for_of keys (merge_key JSON_stringify d vs) st = (res, st') →
  (length (persists (trace (st_world st'))) + written_count d (st_result st)
   = length (persists (trace (st_world st))) + written_count d (st_result st'))%nat.
Proof.
  revert st. induction keys as [|key keys IH]; intros st Hrun.
  - by injection Hrun as <- <-.
  - rewrite for_of_cons, merge_key_step in Hrun.
    destruct (read_of vs d key) as [[v|]|e].
    + destruct (held d (ddata d st !! key)); apply IH in Hrun; simpl in Hrun.
      * rewrite written_count_add_counts in Hrun. lia.
      * rewrite written_count_add_counts, (writeToDisk_trace JSON_stringify) in Hrun.
        unfold persists in *. rewrite List.filter_app, length_app in Hrun.
        simpl in Hrun. lia.
    + by apply IH in Hrun.
    + by injection Hrun as <- <-.
Qed.

(** X13: a completed migration writes to disk once per value it migrates and
    once more for the sentinel. *)
Theorem one_persist_per_write vs c w r c' w' :
  migrate vs c w = (Ok r, (c', w')) → migrated r = true →
  length (persists (trace w'))
  = (length (persists (trace w))
     + globalStateCount r + secretsCount r + workspaceStateCount r + 1)%nat.
Proof.
  rewrite migrate_unfold.
  destruct (version_reached _) as [[]|e0]; [| |done].
  { by intros [= <- <- <-]. }
  destruct (steps vs _) as [[[]|e] st'] eqn:Hsteps; [|done].
  intros [= <- <- <-] _. rewrite migrate_steps_unfold in Hsteps.
  destruct (for_of GlobalStateAndSettingKeys _ _) as [[[]|e1] st1] eqn:H1; [|done].
  destruct (for_of SecretKeys _ st1) as [[[]|e2] st2] eqn:H2; [|done].
  destruct (for_of LocalStateKeys _ st2) as [[[]|e3] st3] eqn:H3; [|done].
  destruct (merge_loop_result _ _ _ _ _ _ H1) as [_ Hr1].
  destruct (merge_loop_result _ _ _ _ _ _ H2) as [_ Hr2].
  destruct (merge_loop_result _ _ _ _ _ _ H3) as [_ Hr3].
  apply merge_loop_persists in H1, H2, H3. simpl in H1, H2, H3.
  destruct (write_sentinel_spec st3) as (st4 & Hw' & _ & _ & _ & Hres).
  destruct (write_sentinel_world st3) as (st5 & Hw'' & Hworld).
  rewrite Hw' in Hw''. injection Hw'' as <-.
  rewrite Hsteps in Hw'. injection Hw' as <-.
  rewrite Hworld, (writeToDisk_trace JSON_stringify), Hres. simpl.
  unfold persists in *. rewrite List.filter_app, length_app. simpl.
  pose proof (Hr2 GlobalState) as Hg2. pose proof (Hr3 GlobalState) as Hg3.
  pose proof (Hr1 Secrets) as Hs1. pose proof (Hr3 Secrets) as Hs3.
  pose proof (Hr1 WorkspaceState) as Hw1. pose proof (Hr2 WorkspaceState) as Hw2.
  simpl in *.
  rewrite Hg2, Hg3, Hs1, Hs3, Hw1, Hw2 in * by done. simpl in *. lia.
Qed.


(** The value a completed run of the loops leaves for each key. *)
Lemma steps_values vs st :
  (∀ k e, k ∈ GlobalStateAndSettingKeys → vscode.globalState_get vs k ≠ Throw e) →
  (∀ k e, k ∈ LocalStateKeys → vscode.workspaceState_get vs k ≠ Throw e) →
  ∃ st3 st',
    steps vs st = (Ok tt, st') ∧ write_sentinel st3 = (Ok tt, st')
    ∧ ∀ d k,
        ddata d st3 !! k
        = if decide (k ∈ keys_of d)
          then if held d (ddata d st !! k) then ddata d st !! k
               else match legacy_value vs d k with
                    | Some v => Some v
                    | None => ddata d st !! k
                    end
          else ddata d st !! k.
Proof.
  intros HG HL.
  destruct (steps_ok vs st HG HL) as (st3 & st' & Hsteps & Hw & Hadd & Hval & _).
  exists st3, st'. split; [done|]. split; [done|].
  intros d k.
  destruct (Hadd d k) as [Heq|(Hk & Hh & Hl & Heq)].
  - destruct (decide (k ∈ keys_of d)) as [Hk|Hk]; [|done].
    destruct (held d (ddata d st !! k)) eqn:Hh; [done|].
    destruct (legacy_value vs d k) as [v|] eqn:Hleg; [|done].
    rewrite <- Hleg. apply Hval; [done|done|]. rewrite Hleg. by eexists.
  - destruct (decide (k ∈ keys_of d)); [|done].
    rewrite Hh, Heq. by destruct Hl as [v ->].
Qed.

(** X15: a run that rejected in its loops can simply be retried: when the
    sentinel key is not a key of the global table and the sentinel test of
    the failed run returned false (it did not throw on a sentinel that cannot
    be converted), a retry against a source whose reads all return, and which
    still has every value the failed run saw, resolves with [migrated = true]
    and leaves every destination key as one run of that source on the
    original destination would have. *)
Theorem retry_after_failure vs vs2 c w e c1 w1 :
  MIGRATION_VERSION_KEY ∉ GlobalStateAndSettingKeys →
  version_reached (get MIGRATION_VERSION_KEY (globalState c)) = Ok false →
  migrate vs c w = (Throw e, (c1, w1)) →
  (∀ k e, k ∈ GlobalStateAndSettingKeys → vscode.globalState_get vs2 k ≠ Throw e) →
  (∀ k e, k ∈ LocalStateKeys → vscode.workspaceState_get vs2 k ≠ Throw e) →
  (∀ d k v, legacy_value vs d k = Some v → legacy_value vs2 d k = Some v) →
  ∃ r2 c2 w2 r c' w',
    migrate vs2 c1 w1 = (Ok r2, (c2, w2)) ∧ migrated r2 = true
    ∧ migrate vs2 c w = (Ok r, (c', w')) ∧ migrated r = true
    ∧ ∀ d k, get k (store_of d c2) = get k (store_of d c').
Proof.
  intros Hsent Hv Hrun HG HL Hsame.
  destruct (migrate_frame _ _ _ _ _ _ Hrun) as (c3 & Hadd & Hlast).
  assert (c1 = c3) as <-.
  { destruct Hlast as [->|(Hglobal & _)]; [done|]. exfalso.
    rewrite migrate_unfold, Hv in Hrun.
    destruct (steps vs _) as [[[]|e'] st'] eqn:Hsteps; [done|].
    injection Hrun as -> <- <-.
    destruct (steps_frame _ _ _ _ Hsteps) as [Hadd' _].
    destruct (Hadd' e eq_refl GlobalState MIGRATION_VERSION_KEY) as [Heq|(Hk & _)];
      [|by apply Hsent in Hk].
    unfold get, _get in Hv. simpl in Heq. rewrite <- Heq, Hglobal in Hv.
    by rewrite lookup_insert_eq in Hv. }
  assert (version_reached (get MIGRATION_VERSION_KEY (globalState c1)) = Ok false) as Hv1.
  { destruct (Hadd GlobalState MIGRATION_VERSION_KEY) as [Heq|(Hk & _)];
      [|by apply Hsent in Hk].
    unfold get, _get. simpl in Heq. by rewrite Heq. }
  destruct (steps_values vs2 (mkState c1 w1 initial_result) HG HL)
    as (sa & sa' & Hsteps1 & Hw1 & Hval1).
  destruct (steps_values vs2 (mkState c w initial_result) HG HL)
    as (sb & sb' & Hsteps2 & Hw2 & Hval2).
  destruct (write_sentinel_spec sa) as (x1 & Hx1 & Hg1 & Hs1 & Hws1 & Hres1).
  rewrite Hw1 in Hx1. injection Hx1 as <-.
  destruct (write_sentinel_spec sb) as (x2 & Hx2 & Hg2 & Hs2 & Hws2 & Hres2).
  rewrite Hw2 in Hx2. injection Hx2 as <-.
  exists (st_result sa'), (st_storage sa'), (st_world sa'),
         (st_result sb'), (st_storage sb'), (st_world sb').
  split; [by rewrite migrate_unfold, Hv1, Hsteps1|]. split; [by rewrite Hres1|].
  split; [by rewrite migrate_unfold, Hv, Hsteps2|]. split; [by rewrite Hres2|].
  assert (∀ d k, ddata d sa !! k = ddata d sb !! k) as Hsame3.
  { intros d k. rewrite Hval1, Hval2. simpl.
    destruct (decide (k ∈ keys_of d)) as [Hk|Hk].
    - destruct (Hadd d k) as [->|(_ & Hh & [v Hl] & Heq)]; [done|].
      rewrite Hh, Heq, Hl, (held_legacy _ _ _ _ Hl). by rewrite (Hsame _ _ _ Hl).
    - by destruct (Hadd d k) as [->|(? & _)]. }
  intros d k. unfold get, _get. simpl in Hg1, Hg2. destruct d; simpl.
  - rewrite Hg1, Hg2.
    destruct (decide (MIGRATION_VERSION_KEY = k)) as [<-|Hne].
    + by rewrite !lookup_insert_eq.
    + rewrite !lookup_insert_ne by done. apply (Hsame3 GlobalState).
  - rewrite Hs1, Hs2. apply (Hsame3 Secrets).
  - rewrite Hws1, Hws2. apply (Hsame3 WorkspaceState).
Qed.

(** Whatever its outcome, a loop keeps the path of every store, writes to no
    file but the one of its own store, and leaves the failing paths alone. *)
Lemma merge_loop_files d vs keys st res st' :
  for_of keys (merge_key JSON_stringify d vs) st = (res, st') →
  (∀ d', fsPath (store_of d' (st_storage st')) = fsPath (store_of d' (st_storage st)))
  ∧ (∀ p, p ≠ fsPath (store_of d (st_storage st)) →
          files (st_world st') !! p = files (st_world st) !! p)
  ∧ broken (st_world st') = broken (st_world st).
Proof.
  revert st. induction keys as [|key keys IH]; intros st Hrun.
  - by injection Hrun as <- <-.
  - rewrite for_of_cons, merge_key_step in Hrun.
    destruct (read_of vs d key) as [[v|]|e].
    + destruct (held d (ddata d st !! key)); [by apply IH in Hrun|].
      apply IH in Hrun as (Hpaths & Hfiles & Hbroken). simpl in *.
      assert (∀ d', fsPath (store_of d' (put_store d
                (with_data (<[key:=v]> (ddata d st)) (store_of d (st_storage st)))
                (st_storage st))) = fsPath (store_of d' (st_storage st))) as Hput
        by (intros d'; by destruct d, d').
      split; [intros d'; by rewrite Hpaths, Hput|]. split.
      * intros p Hp. rewrite Hfiles by (by rewrite Hput).
        by apply (writeToDisk_other_files JSON_stringify).
      * by rewrite Hbroken, (writeToDisk_broken JSON_stringify).
    + by apply IH in Hrun.
    + by injection Hrun as <- <-.
Qed.

(** X18: the migration writes to no file but those of the three destination
    stores: whatever the outcome of the call, every other file is as before,
    the stores keep their paths, and the failing paths are the same. *)
Theorem migration_writes_only_store_files vs c w res c' w' :
  migrate vs c w = (res, (c', w')) →
  (∀ d, fsPath (store_of d c') = fsPath (store_of d c))
  ∧ (∀ p, (∀ d, p ≠ fsPath (store_of d c)) → files w' !! p = files w !! p)
  ∧ broken w' = broken w.
Proof.
  rewrite migrate_unfold.
  destruct (version_reached _) as [[]|e0].
  1, 3: by intros [= <- <- <-].
  destruct (steps vs _) as [[[]|e] st'] eqn:Hsteps; intros [= <- <- <-];
    rewrite migrate_steps_unfold in Hsteps;
    destruct (for_of GlobalStateAndSettingKeys _ _) as [[[]|e1] st1] eqn:H1;
    try (apply merge_loop_files in H1 as (Hp1 & Hf1 & Hb1); simpl in Hp1, Hf1, Hb1).
  - destruct (for_of SecretKeys _ st1) as [[[]|e2] st2] eqn:H2; [|done].
    apply merge_loop_files in H2 as (Hp2 & Hf2 & Hb2).
    destruct (for_of LocalStateKeys _ st2) as [[[]|e3] st3] eqn:H3; [|done].
    apply merge_loop_files in H3 as (Hp3 & Hf3 & Hb3).
    destruct (write_sentinel_world st3) as (st4 & Hw & Hworld).
    rewrite Hsteps in Hw. injection Hw as <-.
    destruct (write_sentinel_spec st3) as (st5 & Hw' & _ & Hsec & Hwork & _).
    rewrite Hsteps in Hw'. injection Hw' as <-.
    assert (fsPath (globalState (st_storage st')) = fsPath (globalState c)) as Hg.
    { pose proof (Hp3 GlobalState) as P3. pose proof (Hp2 GlobalState) as P2.
      pose proof (Hp1 GlobalState) as P1. simpl in *.
      rewrite <- P1, <- P2, <- P3.
      unfold mbind, M_bind, bind, storage_set, set, _set, set_migrated, update_result
        in Hsteps. simpl in Hsteps. by injection Hsteps as <-. }
    split; [|split].
    + intros []; simpl; [done| |].
      * rewrite Hsec. pose proof (Hp3 Secrets) as P3. pose proof (Hp2 Secrets) as P2.
        pose proof (Hp1 Secrets) as P1. simpl in *. congruence.
      * rewrite Hwork. pose proof (Hp3 WorkspaceState) as P3.
        pose proof (Hp2 WorkspaceState) as P2. pose proof (Hp1 WorkspaceState) as P1.
        simpl in *. congruence.
    + intros p Hp. rewrite Hworld.
      rewrite (writeToDisk_other_files JSON_stringify)
        by (rewrite Hg; apply (Hp GlobalState)).
      rewrite Hf3, Hf2, Hf1; [done|apply (Hp GlobalState)| |].
      * rewrite (Hp1 Secrets). apply (Hp Secrets).
      * rewrite (Hp2 WorkspaceState), (Hp1 WorkspaceState). apply (Hp WorkspaceState).
    + by rewrite Hworld, (writeToDisk_broken JSON_stringify), Hb3, Hb2, Hb1.
  - by destruct (write_sentinel_spec st1) as (? & Hw & _).
  - destruct (for_of SecretKeys _ st1) as [[[]|e2] st2] eqn:H2.
    + apply merge_loop_files in H2 as (Hp2 & Hf2 & Hb2).
      destruct (for_of LocalStateKeys _ st2) as [[[]|e3] st3] eqn:H3.
      * by destruct (write_sentinel_spec st3) as (? & Hw & _); rewrite Hw in Hsteps.
      * injection Hsteps as <- <-.
        apply merge_loop_files in H3 as (Hp3 & Hf3 & Hb3).
        split; [|split].
        -- intros d. by rewrite Hp3, Hp2, Hp1.
        -- intros p Hp. rewrite Hf3, Hf2, Hf1; [done|apply (Hp GlobalState)| |].
           ++ rewrite (Hp1 Secrets). apply (Hp Secrets).
           ++ rewrite (Hp2 WorkspaceState), (Hp1 WorkspaceState).
              apply (Hp WorkspaceState).
        -- by rewrite Hb3, Hb2, Hb1.
    + injection Hsteps as <- <-.
      apply merge_loop_files in H2 as (Hp2 & Hf2 & Hb2).
      split; [|split].
      * intros d. by rewrite Hp2, Hp1.
      * intros p Hp. rewrite Hf2, Hf1; [done|apply (Hp GlobalState)|].
        rewrite (Hp1 Secrets). apply (Hp Secrets).
      * by rewrite Hb2, Hb1.
  - injection Hsteps as <- <-. split; [done|]. split; [|done].
    intros p Hp. apply Hf1, (Hp GlobalState).
Qed.

End MigrationFacts.

(** ** The credential client *)

(** C8: [getServerCredentials] never rejects.  When the client cannot be
    created, when the call throws and when the broker answers with an error,
    it resolves to the empty mapping; when the broker answers with a response,
    it resolves to the response's [env], or to the empty mapping when the
    response or its [env] is missing. *)
Theorem getServerCredentials_never_rejects
    (host : CredentialClient.Host) (serverName : string)
    (credentialClient : option CredentialClient.Client) :
  let p := (CredentialClient.getServerCredentials host serverName credentialClient).1 in
  (∀ e, p ≠ Rejected e)
  ∧ (∀ e, (CredentialClient.getClient host credentialClient).1 = Throw e → p = Resolved ∅)
  ∧ (∀ client,
       (CredentialClient.getClient host credentialClient).1 = Ok client →
       match CredentialClient.client_getServerCredentials client serverName with
       | CredentialClient.CallThrows _ => p = Resolved ∅
       | CredentialClient.CallbackError _ => p = Resolved ∅
       | CredentialClient.CallbackResponse (Some (CredentialClient.mkGetResponse (Some env))) =>
           p = Resolved env
       | CredentialClient.CallbackResponse _ => p = Resolved ∅
       | CredentialClient.NoCallback => p = Pending
       end).
Proof.
  unfold CredentialClient.getServerCredentials.
  destruct (CredentialClient.getClient host credentialClient) as [[client|err] cc]; simpl.
  - destruct (CredentialClient.client_getServerCredentials client serverName)
      as [e1|e1|[[[env|]]|]|] eqn:Hcall; simpl.
    all: split; [done|]; split; [done|]; intros client' [= <-]; by rewrite Hcall.
  - split; [done|]. split; [done|]. done.
Qed.

(** What a call on a given client resolves to. *)
Lemma getServerCredentials_cached host serverName client :
  CredentialClient.getServerCredentials host serverName (Some client)
  = (match CredentialClient.client_getServerCredentials client serverName with
     | CredentialClient.CallThrows _ => Resolved ∅
     | CredentialClient.CallbackError _ => Resolved ∅
     | CredentialClient.CallbackResponse response =>
         Resolved (CredentialClient.env_or_empty response)
     | CredentialClient.NoCallback => Pending
     end, Some client).
Proof.
  unfold CredentialClient.getServerCredentials. simpl.
  by destruct (CredentialClient.client_getServerCredentials client serverName).
Qed.

(** X16: the client is created once and kept: after a first call that could
    create the client, later calls use that client whatever the environment
    and the gRPC stack have become, whether or not the calls on it succeed;
    only [resetCredentialClient] makes the next call create a client again,
    at the address of the moment. *)
Theorem client_is_kept_until_reset
    (host host' : CredentialClient.Host) (serverName serverName' : string)
    (client client' : CredentialClient.Client) :
  CredentialClient.new_CredentialServiceClient host (CredentialClient.address host)
  = Ok client →
  let cc := (CredentialClient.getServerCredentials host serverName None).2 in
  cc = Some client
  ∧ CredentialClient.getServerCredentials host' serverName' cc
    = CredentialClient.getServerCredentials host serverName' (Some client)
  ∧ (CredentialClient.getServerCredentials host' serverName' cc).2 = Some client
  ∧ (CredentialClient.new_CredentialServiceClient host' (CredentialClient.address host')
     = Ok client' →
     (CredentialClient.getServerCredentials host' serverName'
        (CredentialClient.resetCredentialClient cc)).2 = Some client').
Proof.
  intros Hnew cc.
  assert (cc = Some client) as ->.
  { subst cc. unfold CredentialClient.getServerCredentials, CredentialClient.getClient.
    rewrite Hnew.
    by destruct (CredentialClient.client_getServerCredentials client serverName). }
  split; [done|]. rewrite !getServerCredentials_cached. split; [done|]. split; [done|].
  intros Hnew'.
  unfold CredentialClient.resetCredentialClient,
    CredentialClient.getServerCredentials, CredentialClient.getClient.
  rewrite Hnew'.
  by destruct (CredentialClient.client_getServerCredentials client' serverName').
Qed.

(** X17: a client that could not be created is not kept: the call resolves
    to the empty mapping and leaves no client behind, so the next call tries
    to create one again and keeps it if it can. *)
Theorem failed_connection_is_retried
    (host host' : CredentialClient.Host) (serverName serverName' : string)
    (err : Error) (client' : CredentialClient.Client) :
  CredentialClient.new_CredentialServiceClient host (CredentialClient.address host)
  = Throw err →
  CredentialClient.getServerCredentials host serverName None = (Resolved ∅, None)
  ∧ (CredentialClient.new_CredentialServiceClient host' (CredentialClient.address host')
     = Ok client' →
     CredentialClient.getServerCredentials host' serverName'
       (CredentialClient.getServerCredentials host serverName None).2
     = CredentialClient.getServerCredentials host' serverName' (Some client')).
Proof.
  intros Hnew.
  assert (CredentialClient.getServerCredentials host serverName None = (Resolved ∅, None))
    as Hfirst.
  { unfold CredentialClient.getServerCredentials, CredentialClient.getClient.
    by rewrite Hnew. }
  split; [done|]. intros Hnew'. rewrite Hfirst. simpl.
  rewrite getServerCredentials_cached.
  unfold CredentialClient.getServerCredentials, CredentialClient.getClient.
  rewrite Hnew'.
  by destruct (CredentialClient.client_getServerCredentials client' serverName').
Qed.

(** ** The VSCode host-bridge stubs *)

(** C10: the VSCode handler for [getServerCredentials] answers with the
    requested name and an empty [env]; the handlers for
    [storeServerCredentials] and [deleteServerCredentials] answer with the
    empty acknowledgement; none of them changes the state of the host; so
    after any history of requests a fetch still yields no credentials. *)
Theorem vscode_stubs_constant (HostState : Type) (h : HostState) :
  (∀ request,
     VscodeHostBridge.getServerCredentials HostState request h
     = (Resolved (VscodeHostBridge.mkServerCredentials
                    (VscodeHostBridge.value request) ∅), h))
  ∧ (∀ request,
       VscodeHostBridge.storeServerCredentials HostState request h
       = (Resolved VscodeHostBridge.mkEmptyRequest, h))
  ∧ (∀ request,
       VscodeHostBridge.deleteServerCredentials HostState request h
       = (Resolved VscodeHostBridge.mkEmptyRequest, h))
  ∧ (∀ history request,
       VscodeHostBridge.serve_all HostState history h = h
       ∧ VscodeHostBridge.getServerCredentials HostState request
           (VscodeHostBridge.serve_all HostState history h)
         = (Resolved (VscodeHostBridge.mkServerCredentials
                        (VscodeHostBridge.value request) ∅), h)).
Proof.
  do 3 (split; [done|]).
  intros history request.
  assert (VscodeHostBridge.serve_all HostState history h = h) as ->; [|done].
  unfold VscodeHostBridge.serve_all.
  induction history as [|[r|r|r] history IH]; simpl; done.
Qed.

(** ** The properties at work on the concrete scenario *)

(** Decidable side conditions on concrete data are settled by evaluation. *)
Ltac by_evaluation := apply (bool_decide_unpack _); vm_compute; exact I.

(** A run is known from its outcome and the state it leaves. *)
Lemma run_eta {A B C} (x : Result A * (B * C)) (r : Result A) :
  x.1 = r → x = (r, (x.2.1, x.2.2)).
Proof. destruct x as [r' [b c]]. simpl. by intros ->. Qed.



Lemma roundtrip_persistence_witness :
  let s0 := new_ClineFileStorage JsonText.parse "/data/globalState.json" None None
              Scenario.w0 in
  let w1 := (set JsonText.stringify "k" (Some Scenario.nested) s0 Scenario.w0).2 in
  get "k" (new_ClineFileStorage JsonText.parse "/data/globalState.json" None None w1)
  = Some Scenario.nested.
Proof.
  apply (roundtrip_persistence JsonText.stringify JsonText.parse).
  - discriminate.
  - left. reflexivity.
  - by_evaluation.
  - vm_compute. reflexivity.
Defined.



Lemma migrate_idempotent_witness :
  let run := Scenario.migrate Scenario.legacy Scenario.ctx0 Scenario.w0 in
  Scenario.migrate Scenario.broken_legacy run.2.1 run.2.2
  = (Ok initial_result, (run.2.1, run.2.2)).
Proof.
  intros run.
  apply (migrate_idempotent JsonText.stringify
           Scenario.GlobalStateAndSettingKeys Scenario.SecretKeys
           Scenario.LocalStateKeys Scenario.legacy Scenario.broken_legacy
           Scenario.ctx0 Scenario.w0 (mkResult true 1 1 1 1)).
  apply run_eta. vm_compute. reflexivity.
Defined.




Lemma empty_secret_is_absent_witness :
  (∀ st, migrate_secret_key JsonText.stringify Scenario.legacy "blank" st = (Ok tt, st))
  ∧ ∃ st',
      migrate_secret_key JsonText.stringify Scenario.legacy "token"
        (mkState Scenario.ctx0 Scenario.w0 initial_result) = (Ok tt, st')
      ∧ get "token" (secrets (st_storage st')) = Some (JStr "tok-1")
      ∧ secretsCount (st_result st') = 1%nat
      ∧ skippedExisting (st_result st') = 0%nat.
Proof.
  split.
  - apply (empty_secret_is_absent JsonText.stringify
             Scenario.GlobalStateAndSettingKeys Scenario.SecretKeys
             Scenario.LocalStateKeys Scenario.legacy "blank").
    reflexivity.
  - apply (proj2 (empty_secret_is_absent JsonText.stringify
                    Scenario.GlobalStateAndSettingKeys Scenario.SecretKeys
                    Scenario.LocalStateKeys Scenario.legacy "token")
             "tok-1" (mkState Scenario.ctx0 Scenario.w0 initial_result)).
    + reflexivity.
    + done.
    + reflexivity.
Defined.

Lemma getServerCredentials_never_rejects_witness :
  (CredentialClient.getServerCredentials Scenario.host "gmail" None).1
  = Resolved {[ "GMAIL_TOKEN" := "t" ]}
  ∧ (CredentialClient.getServerCredentials Scenario.host "slack" None).1 = Resolved ∅.
Proof.
  split.
  - apply (proj2 (proj2 (getServerCredentials_never_rejects Scenario.host "gmail" None))
             (CredentialClient.mkClient
                (λ serverName,
                   if String.eqb serverName "gmail"
                   then CredentialClient.CallbackResponse
                          (Some (CredentialClient.mkGetResponse
                                   (Some {[ "GMAIL_TOKEN" := "t" ]})))
                   else CredentialClient.CallbackError (mkError "NOT_FOUND")))).
    reflexivity.
  - apply (proj2 (proj2 (getServerCredentials_never_rejects Scenario.host "slack" None))
             (CredentialClient.mkClient
                (λ serverName,
                   if String.eqb serverName "gmail"
                   then CredentialClient.CallbackResponse
                          (Some (CredentialClient.mkGetResponse
                                   (Some {[ "GMAIL_TOKEN" := "t" ]})))
                   else CredentialClient.CallbackError (mkError "NOT_FOUND")))).
    reflexivity.
Defined.

(** ** The further properties at work on the concrete scenario *)


Lemma set_writes_through_witness :
  let r := _set JsonText.stringify "a" (Some (JNum 1)) Scenario.store0 Scenario.w0 in
  files r.2 !! "/data/globalState.json" = Some (JsonText.stringify (data r.1))
  ∧ files r.2 !! "/data/secrets.json" = None.
Proof.
  intros r.
  destruct (set_writes_through JsonText.stringify "a" (Some (JNum 1))
              Scenario.store0 Scenario.w0) as (Hwritten & Hother & _).
  - by_evaluation.
  - split; [exact Hwritten|]. by rewrite Hother.
Defined.




Lemma legacy_only_keys_are_copied_witness :
  let run := Scenario.migrate Scenario.legacy Scenario.ctx0 Scenario.w0 in
  get "theme" (globalState run.2.1) = Some (JStr "dark")
  ∧ get "tabs" (workspaceState run.2.1) = Some (JArr [JNum 1; JNum 2]).
Proof.
  intros run.
  assert (run.1 = Ok (mkResult true 1 1 1 1)) as Hrun by (vm_compute; reflexivity).
  pose proof (legacy_only_keys_are_copied JsonText.stringify
                Scenario.GlobalStateAndSettingKeys Scenario.SecretKeys
                Scenario.LocalStateKeys Scenario.legacy Scenario.ctx0 Scenario.w0
                (mkResult true 1 1 1 1) run.2.1 run.2.2) as Hcopied.
  split.
  - apply (Hcopied ltac:(by_evaluation) (run_eta _ _ Hrun) eq_refl GlobalState);
      [by_evaluation|reflexivity|reflexivity].
  - apply (Hcopied ltac:(by_evaluation) (run_eta _ _ Hrun) eq_refl WorkspaceState);
      [by_evaluation|reflexivity|reflexivity].
Defined.

Lemma migration_never_removes_witness :
  let run := Scenario.migrate Scenario.broken_legacy Scenario.ctx0 Scenario.w0 in
  is_Some (get "mode" (globalState run.2.1))
  ∧ is_Some (get "token" (secrets run.2.1)).
Proof.
  intros run. split.
  - apply (migration_never_removes JsonText.stringify
             Scenario.GlobalStateAndSettingKeys Scenario.SecretKeys
             Scenario.LocalStateKeys Scenario.broken_legacy Scenario.ctx0 Scenario.w0
             run.1 run.2.1 run.2.2 GlobalState "mode").
    + by apply run_eta.
    + by eexists.
  - apply (migration_never_removes JsonText.stringify
             Scenario.GlobalStateAndSettingKeys Scenario.SecretKeys
             Scenario.LocalStateKeys Scenario.broken_legacy Scenario.ctx0 Scenario.w0
             run.1 run.2.1 run.2.2 Secrets "token").
    + by apply run_eta.
    + by eexists.
Defined.

Lemma migration_leaves_other_keys_witness :
  let run := Scenario.migrate Scenario.legacy Scenario.ctx0 Scenario.w0 in
  get "unrelated" (globalState run.2.1) = None
  ∧ get "theme" (secrets run.2.1) = None.
Proof.
  intros run. split.
  - apply (migration_leaves_other_keys JsonText.stringify
             Scenario.GlobalStateAndSettingKeys Scenario.SecretKeys
             Scenario.LocalStateKeys Scenario.legacy Scenario.ctx0 Scenario.w0
             run.1 run.2.1 run.2.2 GlobalState "unrelated").
    + by apply run_eta.
    + by_evaluation.
    + intros _. by_evaluation.
  - apply (migration_leaves_other_keys JsonText.stringify
             Scenario.GlobalStateAndSettingKeys Scenario.SecretKeys
             Scenario.LocalStateKeys Scenario.legacy Scenario.ctx0 Scenario.w0
             run.1 run.2.1 run.2.2 Secrets "theme").
    + by apply run_eta.
    + by_evaluation.
    + done.
Defined.

Lemma migration_survives_restart_witness :
  let run := Scenario.migrate Scenario.legacy Scenario.ctx0 Scenario.w0 in
  let reloaded :=
    mkContext (new_ClineFileStorage JsonText.parse "/data/globalState.json"
                 (Some "globalState") None run.2.2)
              (Scenario.empty_store "secrets" "/data/secrets.json" (Some 384))
              (Scenario.empty_store "workspaceState" "/data/workspaceState.json" None) in
  Scenario.migrate Scenario.broken_legacy reloaded run.2.2
  = (Ok initial_result, (reloaded, run.2.2)).
Proof.
  intros run reloaded.
  assert (run.1 = Ok (mkResult true 1 1 1 1)) as Hrun by (vm_compute; reflexivity).
  assert (fsPath (globalState run.2.1) = "/data/globalState.json") as Hpath
    by (vm_compute; reflexivity).
  destruct (migration_survives_restart JsonText.stringify
              Scenario.GlobalStateAndSettingKeys Scenario.SecretKeys
              Scenario.LocalStateKeys JsonText.parse Scenario.legacy Scenario.ctx0
              Scenario.w0 (mkResult true 1 1 1 1) run.2.1 run.2.2
              (run_eta _ _ Hrun) eq_refl)
    with (name := Some "globalState") (options := @None ClineFileStorageOptions)
         (secrets' := Scenario.empty_store "secrets" "/data/secrets.json" (Some 384))
         (workspaceState' :=
            Scenario.empty_store "workspaceState" "/data/workspaceState.json" None)
         (vs2 := Scenario.broken_legacy)
    as (_ & Hagain).
  - by_evaluation.
  - vm_compute. reflexivity.
  - rewrite Hpath in Hagain. exact Hagain.
Defined.

Lemma counters_bounded_witness :
  let run := Scenario.migrate Scenario.legacy Scenario.ctx0 Scenario.w0 in
  run.1 = Ok (mkResult true 1 1 1 1) ∧ (1 + 1 + 1 + 1 ≤ 2 + 3 + 1)%nat.
Proof.
  intros run.
  assert (run.1 = Ok (mkResult true 1 1 1 1)) as Hrun by (vm_compute; reflexivity).
  split; [done|].
  apply (counters_bounded JsonText.stringify
           Scenario.GlobalStateAndSettingKeys Scenario.SecretKeys
           Scenario.LocalStateKeys Scenario.legacy Scenario.ctx0 Scenario.w0
           (mkResult true 1 1 1 1) run.2.1 run.2.2 (run_eta _ _ Hrun)).
Defined.

Lemma one_persist_per_write_witness :
  let run := Scenario.migrate Scenario.legacy Scenario.ctx0 Scenario.w0 in
  length (persists (trace run.2.2)) = 4%nat.
Proof.
  intros run.
  assert (run.1 = Ok (mkResult true 1 1 1 1)) as Hrun by (vm_compute; reflexivity).
  apply (one_persist_per_write JsonText.stringify
           Scenario.GlobalStateAndSettingKeys Scenario.SecretKeys
           Scenario.LocalStateKeys Scenario.legacy Scenario.ctx0 Scenario.w0
           (mkResult true 1 1 1 1) run.2.1 run.2.2 (run_eta _ _ Hrun) eq_refl).
Defined.


Lemma retry_after_failure_witness :
  let failed := Scenario.migrate Scenario.broken_legacy Scenario.ctx1 Scenario.w0 in
  ∃ r2 c2 w2 r c' w',
    Scenario.migrate Scenario.legacy failed.2.1 failed.2.2 = (Ok r2, (c2, w2))
    ∧ migrated r2 = true
    ∧ Scenario.migrate Scenario.legacy Scenario.ctx1 Scenario.w0 = (Ok r, (c', w'))
    ∧ migrated r = true
    ∧ ∀ d k, get k (store_of d c2) = get k (store_of d c').
Proof.
  intros failed.
  assert (failed.1 = Throw (mkError "memento unavailable")) as Hfailed
    by (vm_compute; reflexivity).
  apply (retry_after_failure JsonText.stringify
           Scenario.GlobalStateAndSettingKeys Scenario.SecretKeys
           Scenario.LocalStateKeys Scenario.broken_legacy Scenario.legacy
           Scenario.ctx1 Scenario.w0 (mkError "memento unavailable")).
  - by_evaluation.
  - reflexivity.
  - by apply run_eta.
  - intros k e _. simpl. repeat case_match; done.
  - intros k e _. simpl. repeat case_match; done.
  - intros [] k v; unfold legacy_value, read_of; simpl;
      repeat case_match; congruence.
Defined.

(** Without the assumption on the sentinel test a retry need not succeed: on
    a destination whose sentinel is an object with a [toString] property of
    its own the comparison throws, the call rejects before its loops, and so
    does every retry, whatever the legacy source returns. *)
Lemma retry_rejects_on_unconvertible_sentinel :
  let stuck :=
    mkContext
      (mkStore "globalState" {[ MIGRATION_VERSION_KEY := JObj [("toString", JNum 1)] ]}
         "/data/globalState.json" None)
      (secrets Scenario.ctx1) (workspaceState Scenario.ctx1) in
  Scenario.migrate Scenario.broken_legacy stuck Scenario.w0
  = (Throw Loose.TypeError, (stuck, Scenario.w0))
  ∧ Scenario.migrate Scenario.legacy stuck Scenario.w0
    = (Throw Loose.TypeError, (stuck, Scenario.w0)).
Proof. split; reflexivity. Qed.

Lemma client_is_kept_until_reset_witness :
  let cc := (CredentialClient.getServerCredentials Scenario.host "slack" None).2 in
  cc = Some Scenario.client
  ∧ (CredentialClient.getServerCredentials Scenario.host_down "gmail" cc).1
    = Resolved {[ "GMAIL_TOKEN" := "t" ]}.
Proof.
  intros cc.
  destruct (client_is_kept_until_reset Scenario.host Scenario.host_down "slack" "gmail"
              Scenario.client Scenario.client eq_refl) as (Hcc & Hsame & _).
  fold cc in Hcc, Hsame. split; [exact Hcc|]. by rewrite Hsame.
Defined.

Lemma failed_connection_is_retried_witness :
  CredentialClient.getServerCredentials Scenario.host_down "gmail" None
  = (Resolved ∅, None)
  ∧ (CredentialClient.getServerCredentials Scenario.host "gmail"
       (CredentialClient.getServerCredentials Scenario.host_down "gmail" None).2).2
    = Some Scenario.client.
Proof.
  destruct (failed_connection_is_retried Scenario.host_down Scenario.host "gmail" "gmail"
              (mkError "UNAVAILABLE") Scenario.client eq_refl) as (Hfirst & Hnext).
  split; [exact Hfirst|]. by rewrite (Hnext eq_refl).
Defined.

Lemma migration_writes_only_store_files_witness :
  let run := Scenario.migrate Scenario.legacy Scenario.ctx0 Scenario.w_corrupt in
  files run.2.2 !! "/data/other.json" = None
  ∧ fsPath (secrets run.2.1) = "/data/secrets.json".
Proof.
  intros run.
  destruct (migration_writes_only_store_files JsonText.stringify
              Scenario.GlobalStateAndSettingKeys Scenario.SecretKeys
              Scenario.LocalStateKeys Scenario.legacy Scenario.ctx0 Scenario.w_corrupt
              run.1 run.2.1 run.2.2 (run_eta _ _ eq_refl)) as (Hpaths & Hfiles & _).
  split.
  - rewrite Hfiles; [done|]. intros []; by_evaluation.
  - apply (Hpaths Secrets).
Defined.
